(** * Tank battle (game.py): a shallow embedding and its verified properties

    The simulation core of [game.py] is translated function by function:
    shells, tanks (player and pursuit AI), wall-collision resolution, the
    seeded level generator and the per-frame orchestration of [Level.update].

    Conventions of the embedding.
    - Python [int] is [Z]; Python [float] is an exact rational [Q] (rounding
      of IEEE-754 doubles is not modelled).
    - [pygame.Rect] holds four integers; [pygame.Vector2] two floats.
    - Mutable objects are passed and returned explicitly.  A tank carries
      an [ident] standing for its Python object identity, so that the test
      [target is shell.owner] is a comparison of identities.
    - The [math] module and the [random.Random] generator are libraries
      outside the repository: they enter as records of operations
      ([MathLib], [RandomGen]) over which the definitions are parametric. *)

From Stdlib Require Import ZArith QArith Qround Qabs Lia Lqa List Bool.
Import ListNotations.

Local Open Scope Z_scope.

(** ** Python numerics *)

(** [int(x)] on a float: truncation toward zero. *)
Definition py_int (x : Q) : Z := Z.quot (Qnum x) (Zpos (Qden x)).

(** [x // y] on floats: the floor of the quotient, as a float. *)
Definition py_floordiv (x y : Q) : Q := inject_Z (Qfloor (x / y)).

(** [x % y] on floats, for a positive modulus: [x - y * floor(x / y)]. *)
Definition py_mod (x y : Q) : Q := (x - y * inject_Z (Qfloor (x / y)))%Q.

(** [max(a, b)] and [min(a, b)]: the first argument wins ties. *)
Definition py_max (a b : Q) : Q := if Qlt_le_dec a b then b else a.
Definition py_min (a b : Q) : Q := if Qlt_le_dec b a then b else a.

(** [min(a, b, c, d)] on integers. *)
Definition py_min4 (a b c d : Z) : Z := Z.min (Z.min (Z.min a b) c) d.

(** ** Core constants *)

Definition SCREEN_WIDTH : Z := 960.
Definition SCREEN_HEIGHT : Z := 720.
Definition FPS : Z := 60.

Definition TILE_SIZE : Z := 48.
Definition GRID_WIDTH : Z := SCREEN_WIDTH / TILE_SIZE.
Definition GRID_HEIGHT : Z := SCREEN_HEIGHT / TILE_SIZE.

Definition PLAYER_SPEED : Q := 180.
Definition PLAYER_ROTATION_SPEED : Q := 180.
Definition ENEMY_SPEED : Q := 120.
Definition ENEMY_ROTATION_SPEED : Q := 120.
Definition SHELL_SPEED : Q := 400.
Definition SHELL_COOLDOWN : Q := 6 # 10.

Definition LEVEL_BASE_ENEMIES : Q := 2.
Definition LEVEL_ENEMY_SCALE : Q := 125 # 100.

Definition Color : Type := (Z * Z * Z)%type.
Definition COLOR_player : Color := (80, 200, 120).
Definition COLOR_enemy : Color := (200, 80, 80).

(** ** Utility functions *)

Definition clamp (value min_value max_value : Q) : Q :=
  py_max min_value (py_min value max_value).

(** ** pygame geometry *)

Record Vector2 := mkVector2 { vx : Q; vy : Q }.

Definition vadd (a b : Vector2) : Vector2 :=
  mkVector2 (vx a + vx b)%Q (vy a + vy b)%Q.
Definition vsub (a b : Vector2) : Vector2 :=
  mkVector2 (vx a - vx b)%Q (vy a - vy b)%Q.
Definition vscale (a : Vector2) (k : Q) : Vector2 :=
  mkVector2 (vx a * k)%Q (vy a * k)%Q.
Definition length_squared (a : Vector2) : Q := (vx a * vx a + vy a * vy a)%Q.

Record Rect := mkRect { rx : Z; ry : Z; rw : Z; rh : Z }.

Definition left (r : Rect) : Z := rx r.
Definition right (r : Rect) : Z := rx r + rw r.
Definition top (r : Rect) : Z := ry r.
Definition bottom (r : Rect) : Z := ry r + rh r.

(** [Rect.colliderect]: rectangles of zero width or height collide with
    nothing; otherwise the open-interval overlap test of pygame, which
    also copes with negative sizes. *)
Definition colliderect (a b : Rect) : bool :=
  if (rw a =? 0) || (rh a =? 0) || (rw b =? 0) || (rh b =? 0) then false
  else
    (Z.min (rx a) (rx a + rw a) <? Z.max (rx b) (rx b + rw b)) &&
    (Z.min (ry a) (ry a + rh a) <? Z.max (ry b) (ry b + rh b)) &&
    (Z.max (rx a) (rx a + rw a) >? Z.min (rx b) (rx b + rw b)) &&
    (Z.max (ry a) (ry a + rh a) >? Z.min (ry b) (ry b + rh b)).

(** [Rect.collidepoint(x, y)]: pygame converts the two floats to C ints
    (truncation) and tests the half-open box. *)
Definition collidepoint (r : Rect) (x y : Q) : bool :=
  let xi := py_int x in
  let yi := py_int y in
  (rx r <=? xi) && (xi <? rx r + rw r) && (ry r <=? yi) && (yi <? ry r + rh r).

(** Truth value of a rectangle: false when its width or height is zero. *)
Definition rect_bool (r : Rect) : bool := negb ((rw r =? 0) || (rh r =? 0)).

(** ** Game entities *)

Record Shell := mkShell {
  shell_position : Vector2;
  shell_velocity : Vector2;
  shell_owner : nat;          (* identity of the owning tank *)
  shell_radius : Q;
  shell_alive : bool
}.

Record Tank := mkTank {
  ident : nat;                (* Python object identity *)
  position : Vector2;
  angle : Q;
  color : Color;
  speed : Q;
  rotation_speed : Q;
  is_player : bool;
  reload_time : Q;
  shell_cooldown : Q;
  shells : list Shell;
  size : Z * Z;
  alive : bool
}.

Definition set_position (t : Tank) (p : Vector2) : Tank :=
  mkTank (ident t) p (angle t) (color t) (speed t) (rotation_speed t)
         (is_player t) (reload_time t) (shell_cooldown t) (shells t)
         (size t) (alive t).
Definition set_angle (t : Tank) (a : Q) : Tank :=
  mkTank (ident t) (position t) a (color t) (speed t) (rotation_speed t)
         (is_player t) (reload_time t) (shell_cooldown t) (shells t)
         (size t) (alive t).
Definition set_reload_time (t : Tank) (r : Q) : Tank :=
  mkTank (ident t) (position t) (angle t) (color t) (speed t)
         (rotation_speed t) (is_player t) r (shell_cooldown t) (shells t)
         (size t) (alive t).
Definition set_shells (t : Tank) (l : list Shell) : Tank :=
  mkTank (ident t) (position t) (angle t) (color t) (speed t)
         (rotation_speed t) (is_player t) (reload_time t) (shell_cooldown t)
         l (size t) (alive t).
Definition set_alive (t : Tank) (b : bool) : Tank :=
  mkTank (ident t) (position t) (angle t) (color t) (speed t)
         (rotation_speed t) (is_player t) (reload_time t) (shell_cooldown t)
         (shells t) (size t) b.

(** [Tank.rect]: [None] for a zero width or height or a dead tank. *)
Definition Tank_rect (self : Tank) : option Rect :=
  let '(width, height) := size self in
  if (width =? 0) || (height =? 0) || negb (alive self) then None
  else Some (mkRect (py_int (vx (position self) - inject_Z width / 2))
                    (py_int (vy (position self) - inject_Z height / 2))
                    width height).

(** One overlapping wall: the four penetration depths and the push along
    the first axis that attains their minimum. *)
Definition resolve_wall (self : Tank) (rect wall : Rect) : Tank :=
  let dx_left := right wall - left rect in
  let dx_right := right rect - left wall in
  let dy_top := bottom wall - top rect in
  let dy_bottom := bottom rect - top wall in
  let min_penetration := py_min4 dx_left dx_right dy_top dy_bottom in
  let p := position self in
  if min_penetration =? dx_left then
    set_position self (mkVector2 (vx p + inject_Z dx_left) (vy p))
  else if min_penetration =? dx_right then
    set_position self (mkVector2 (vx p - inject_Z dx_right) (vy p))
  else if min_penetration =? dy_top then
    set_position self (mkVector2 (vx p) (vy p + inject_Z dy_top))
  else
    set_position self (mkVector2 (vx p) (vy p - inject_Z dy_bottom)).

(** The [for wall in walls] loop of [_handle_wall_collisions]; [rect] is
    the loop's local variable, recomputed after each correction. *)
Fixpoint wall_loop (self : Tank) (rect : Rect) (walls : list Rect) : Tank :=
  match walls with
  | [] => self
  | wall :: rest =>
      if colliderect rect wall then
        let self' := resolve_wall self rect wall in
        match Tank_rect self' with
        | None => self'
        | Some rect' => wall_loop self' rect' rest
        end
      else wall_loop self rect rest
  end.

Definition Tank__handle_wall_collisions (self : Tank) (walls : list Rect)
  : Tank :=
  match Tank_rect self with
  | None => self
  | Some rect => wall_loop self rect walls
  end.

Record Level := mkLevel {
  number : Z;
  walls : list Rect;
  enemies : list Tank;
  player : Tank;
  player_destroyed : bool
}.

(** The state of the keyboard as [pygame.key.get_pressed()] reports it,
    restricted to the keys the game reads. *)
Record Keys := mkKeys {
  K_w : bool; K_UP : bool;
  K_s : bool; K_DOWN : bool;
  K_a : bool; K_LEFT : bool;
  K_d : bool; K_RIGHT : bool
}.

(** The functions of Python's [math] module (and the square root behind
    [Vector2.length]) that the game calls. *)
Record MathLib := mkMathLib {
  radians : Q -> Q;
  degrees : Q -> Q;
  cos : Q -> Q;
  sin : Q -> Q;
  atan2 : Q -> Q -> Q;
  sqrt : Q -> Q
}.

Section Entities.

Variable M : MathLib.

Local Open Scope Q_scope.

Definition vec_from_angle (angle_degrees : Q) : Vector2 :=
  let rad := radians M angle_degrees in
  mkVector2 (cos M rad) (sin M rad).

Definition vlength (a : Vector2) : Q := sqrt M (length_squared a).

Definition normalize (a : Vector2) : Vector2 :=
  mkVector2 (vx a / vlength a) (vy a / vlength a).

(** *** Shell *)

Definition Shell_update (dt : Q) (walls : list Rect) (self : Shell) : Shell :=
  if negb (shell_alive self) then self
  else
    let p := vadd (shell_position self) (vscale (shell_velocity self) dt) in
    let hit := existsb (fun wall => collidepoint wall (vx p) (vy p)) walls in
    let alive1 := if hit then false else shell_alive self in
    let inside :=
      (Qle_bool 0 (vx p) && Qle_bool (vx p) (inject_Z SCREEN_WIDTH) &&
       Qle_bool 0 (vy p) && Qle_bool (vy p) (inject_Z SCREEN_HEIGHT))%bool in
    let alive2 := if negb inside then false else alive1 in
    mkShell p (shell_velocity self) (shell_owner self) (shell_radius self)
            alive2.

(** *** Tank *)

Definition Tank_fire (self : Tank) : Tank :=
  if (if Qlt_le_dec 0 (reload_time self) then true else false)
     || negb (alive self)
  then self
  else
    let direction := vec_from_angle (angle self) in
    let shell_position :=
      vadd (position self) (vscale direction (inject_Z (fst (size self) / 2)))
    in
    let shell_velocity := vscale direction SHELL_SPEED in
    let shell := mkShell shell_position shell_velocity (ident self) 6 true in
    set_reload_time (set_shells self (shells self ++ [shell]))
                    (shell_cooldown self).

Definition Tank__update_player (dt : Q) (keys : Keys) (level : Level)
  (self : Tank) : Tank :=
  let move0 := mkVector2 0 0 in
  let move1 := if (K_w keys || K_UP keys)%bool
               then vadd move0 (vec_from_angle (angle self)) else move0 in
  let move2 := if (K_s keys || K_DOWN keys)%bool
               then vsub move1 (vec_from_angle (angle self)) else move1 in
  let self1 := if (K_a keys || K_LEFT keys)%bool
               then set_angle self (angle self - rotation_speed self * dt)
               else self in
  let self2 := if (K_d keys || K_RIGHT keys)%bool
               then set_angle self1 (angle self1 + rotation_speed self1 * dt)
               else self1 in
  if Qlt_le_dec 0 (length_squared move2) then
    let move_vector := vscale (vscale (normalize move2) (speed self2)) dt in
    set_position self2 (vadd (position self2) move_vector)
  else self2.

(** The signed angular difference of the pursuit steering. *)
Definition angle_delta (desired_angle current : Q) : Q :=
  py_mod (desired_angle - current + 180) 360 - 180.

Definition Tank__update_enemy (dt : Q) (level : Level) (self : Tank) : Tank :=
  let direction := vsub (position (player level)) (position self) in
  let self1 :=
    if Qlt_le_dec 1 (length_squared direction) then
      let desired_angle := degrees M (atan2 M (vy direction) (vx direction)) in
      let delta := angle_delta desired_angle (angle self) in
      set_angle self
        (angle self + clamp delta (- rotation_speed self * dt)
                                  (rotation_speed self * dt))
    else self in
  let distance := vlength direction in
  let self2 :=
    if Qlt_le_dec (inject_Z TILE_SIZE * (15 # 10)) distance then
      let velocity :=
        vscale (vscale (vec_from_angle (angle self1)) (speed self1)) dt in
      set_position self1 (vadd (position self1) velocity)
    else self1 in
  if (if Qlt_le_dec distance (inject_Z SCREEN_WIDTH) then true else false)
     && Qle_bool (reload_time self2) 0
  then Tank_fire self2
  else self2.

Definition Tank_update (dt : Q) (keys : Keys) (level : Level) (self : Tank)
  : Tank :=
  let self1 :=
    if alive self then
      let s0 := set_reload_time self
                  (clamp (reload_time self - dt) 0 (shell_cooldown self)) in
      let s1 := if is_player s0 then Tank__update_player dt keys level s0
                else Tank__update_enemy dt level s0 in
      Tank__handle_wall_collisions s1 (walls level)
    else self in
  let updated := map (Shell_update dt (walls level)) (shells self1) in
  set_shells self1 (filter shell_alive updated).

End Entities.

(** ** Level *)

(** [random.Random]: a generator is created from an integer seed and
    threaded through its draws.  [rng_random] is [random()], a float in
    [0, 1); [rng_randint a b] is [randint(a, b)], an integer in [a, b]. *)
Record RandomGen := mkRandomGen {
  rng_state : Type;
  Random : Z -> rng_state;
  rng_random : rng_state -> Q * rng_state;
  rng_randint : Z -> Z -> rng_state -> Z * rng_state;
  rng_random_range :
    forall s, (0 <= fst (rng_random s))%Q /\ (fst (rng_random s) < 1)%Q;
  rng_randint_range :
    forall a b s, a <= b ->
      a <= fst (rng_randint a b s) /\ fst (rng_randint a b s) <= b
}.

(** [range(a, b)] *)
Definition py_range (a b : Z) : list Z :=
  map (fun i => a + Z.of_nat i) (seq 0 (Z.to_nat (b - a))).

Definition set_walls (l : Level) (w : list Rect) : Level :=
  mkLevel (number l) w (enemies l) (player l) (player_destroyed l).
Definition set_enemies (l : Level) (e : list Tank) : Level :=
  mkLevel (number l) (walls l) e (player l) (player_destroyed l).
Definition set_player (l : Level) (p : Tank) : Level :=
  mkLevel (number l) (walls l) (enemies l) p (player_destroyed l).
Definition set_player_destroyed (l : Level) (b : bool) : Level :=
  mkLevel (number l) (walls l) (enemies l) (player l) b.

Definition tile_rect (x y : Z) : Rect :=
  mkRect (x * TILE_SIZE) (y * TILE_SIZE) TILE_SIZE TILE_SIZE.

(** The four border strips, in the order the two loops append them. *)
Definition border_walls : list Rect :=
  flat_map (fun x => [tile_rect x 0; tile_rect x (GRID_HEIGHT - 1)])
           (py_range 0 GRID_WIDTH)
  ++ flat_map (fun y => [tile_rect 0 y; tile_rect (GRID_WIDTH - 1) y])
              (py_range 0 GRID_HEIGHT).

(** [_carve_player_spawn] *)
Definition safe_radius : Z := 2.

Definition safe_tiles (player_tile_x player_tile_y : Z) : list (Z * Z) :=
  flat_map
    (fun dy =>
       map (fun dx =>
              (Z.max 0 (Z.min (GRID_WIDTH - 1) (player_tile_x + dx)),
               Z.max 0 (Z.min (GRID_HEIGHT - 1) (player_tile_y + dy))))
           (py_range (- safe_radius) (safe_radius + 1)))
    (py_range (- safe_radius) (safe_radius + 1)).

Definition tile_eqb (a b : Z * Z) : bool :=
  (fst a =? fst b) && (snd a =? snd b).

Definition is_safe (tiles : list (Z * Z)) (rect : Rect) : bool :=
  let tile_x := rx rect / TILE_SIZE in
  let tile_y := ry rect / TILE_SIZE in
  if (tile_x =? 0) || (tile_x =? GRID_WIDTH - 1)
     || (tile_y =? 0) || (tile_y =? GRID_HEIGHT - 1)
  then false
  else existsb (tile_eqb (tile_x, tile_y)) tiles.

Definition Level__carve_player_spawn (self : Level) : Level :=
  let player_tile_x :=
    py_int (py_floordiv (vx (position (player self))) (inject_Z TILE_SIZE)) in
  let player_tile_y :=
    py_int (py_floordiv (vy (position (player self))) (inject_Z TILE_SIZE)) in
  let tiles := safe_tiles player_tile_x player_tile_y in
  set_walls self (filter (fun wall => negb (is_safe tiles wall)) (walls self)).

(** The candidate of one placement attempt: the enemy position and its
    48 x 48 rectangle. *)
Definition candidate_position (x y : Z) : Vector2 :=
  mkVector2 (inject_Z (x * TILE_SIZE) + inject_Z TILE_SIZE / 2)
            (inject_Z (y * TILE_SIZE) + inject_Z TILE_SIZE / 2).

Definition candidate_rect (p : Vector2) : Rect :=
  mkRect (py_int (vx p - 24)) (py_int (vy p - 24)) 48 48.

Definition enemy_count (number : Z) : Z :=
  py_int (LEVEL_BASE_ENEMIES + inject_Z (number - 1) * LEVEL_ENEMY_SCALE).

(** A fresh object identity: above every identity in use. *)
Definition fresh_ident (ts : list Tank) : nat :=
  S (fold_right Nat.max O (map ident ts)).

(** [Tank(position, 90, COLORS["enemy"], ENEMY_SPEED, ENEMY_ROTATION_SPEED)] *)
Definition new_enemy (id : nat) (p : Vector2) : Tank :=
  mkTank id p 90 COLOR_enemy ENEMY_SPEED ENEMY_ROTATION_SPEED false
         0 SHELL_COOLDOWN [] (36, 36) true.

(** The player of [Level.__init__]. *)
Definition new_player : Tank :=
  mkTank O
         (mkVector2 (inject_Z SCREEN_WIDTH / 2)
                    (inject_Z SCREEN_HEIGHT - inject_Z TILE_SIZE * (15 # 10)))
         (-90) COLOR_player PLAYER_SPEED PLAYER_ROTATION_SPEED true
         0 SHELL_COOLDOWN [] (36, 36) true.

Section Generation.

Variable G : RandomGen.

(** Inner loop of [generate_map]: [for x in range(GRID_WIDTH)]. *)
Fixpoint map_row (y : Z) (xs : list Z) (rng : rng_state G) (ws : list Rect)
  : list Rect * rng_state G :=
  match xs with
  | [] => (ws, rng)
  | x :: xs' =>
      let '(r, rng') := rng_random G rng in
      let ws' := if Qlt_le_dec r (12 # 100) then ws ++ [tile_rect x y]
                 else ws in
      map_row y xs' rng' ws'
  end.

(** Outer loop: [for y in range(1, GRID_HEIGHT - 1)]. *)
Fixpoint map_rows (ys : list Z) (rng : rng_state G) (ws : list Rect)
  : list Rect * rng_state G :=
  match ys with
  | [] => (ws, rng)
  | y :: ys' =>
      let '(ws', rng') := map_row y (py_range 0 GRID_WIDTH) rng ws in
      map_rows ys' rng' ws'
  end.

Definition Level_generate_map (self : Level) : Level :=
  let self0 := set_walls self [] in
  let rng := Random G (number self0) in
  let '(ws, _) := map_rows (py_range 1 (GRID_HEIGHT - 1)) rng (walls self0) in
  Level__carve_player_spawn (set_walls self0 (ws ++ border_walls)).

(** One draw of a candidate tile: [x] then [y]. *)
Definition draw_candidate (rng : rng_state G) : Z * Z * rng_state G :=
  let '(x, rng1) := rng_randint G 1 (GRID_WIDTH - 2) rng in
  let '(y, rng2) := rng_randint G 1 (GRID_HEIGHT / 2) rng1 in
  (x, y, rng2).

(** [for _attempt in range(attempts)]: the first candidate that overlaps
    no wall is appended to the enemies and ends the loop. *)
Fixpoint place_enemy (attempts : nat) (self : Level) (rng : rng_state G)
  : Level * rng_state G :=
  match attempts with
  | O => (self, rng)
  | S n =>
      let '(x, y, rng') := draw_candidate rng in
      let position := candidate_position x y in
      let rect := candidate_rect position in
      if negb (existsb (fun wall => colliderect rect wall) (walls self)) then
        let enemy :=
          new_enemy (fresh_ident (player self :: enemies self)) position in
        (set_enemies self (enemies self ++ [enemy]), rng')
      else place_enemy n self rng'
  end.

(** [for _ in range(enemy_count)] *)
Fixpoint place_enemies (slots : nat) (self : Level) (rng : rng_state G)
  : Level * rng_state G :=
  match slots with
  | O => (self, rng)
  | S n =>
      let '(self', rng') := place_enemy 100 self rng in
      place_enemies n self' rng'
  end.

Definition Level_spawn_enemies (self : Level) : Level :=
  let count := enemy_count (number self) in
  let rng := Random G (number self * 31 + 7) in
  fst (place_enemies (Z.to_nat count) self rng).

(** [Level.__init__] *)
Definition Level_init (number : Z) : Level :=
  let self := mkLevel number [] [] new_player false in
  Level_spawn_enemies (Level_generate_map self).

End Generation.

(** *** Per-frame orchestration *)

Fixpoint update_nth {A : Type} (n : nat) (f : A -> A) (l : list A) : list A :=
  match l, n with
  | [], _ => []
  | a :: l', O => f a :: l'
  | a :: l', S n' => a :: update_nth n' f l'
  end.

(** The inner [for target in ...] loop for one live shell: the index of
    the first target that is not the owner, has a rectangle, and contains
    the shell's position. *)
Fixpoint find_target (shell : Shell) (targets : list Tank) (k : nat)
  : option nat :=
  match targets with
  | [] => None
  | target :: rest =>
      if Nat.eqb (ident target) (shell_owner shell) then
        find_target shell rest (S k)
      else
        match Tank_rect target with
        | Some rect =>
            if rect_bool rect &&
               collidepoint rect (vx (shell_position shell))
                                 (vy (shell_position shell))
            then Some k
            else find_target shell rest (S k)
        | None => find_target shell rest (S k)
        end
  end.

Definition kill_shell (j : nat) (t : Tank) : Tank :=
  set_shells t
    (update_nth j
       (fun s => mkShell (shell_position s) (shell_velocity s) (shell_owner s)
                         (shell_radius s) false)
       (shells t)).

(** The body of the shell loop, for shell [j] of tank [i]; the tanks are
    the shared objects [[self.player] + self.enemies]. *)
Definition strike (tanks : list Tank) (i j : nat) : list Tank :=
  match nth_error tanks i with
  | None => tanks
  | Some tank =>
      match nth_error (shells tank) j with
      | None => tanks
      | Some shell =>
          if negb (shell_alive shell) then tanks
          else
            match find_target shell tanks O with
            | None => tanks
            | Some k =>
                update_nth k (fun t => set_alive t false)
                           (update_nth i (kill_shell j) tanks)
            end
      end
  end.

Definition strike_all (tanks : list Tank) (i : nat) : list Tank :=
  match nth_error tanks i with
  | None => tanks
  | Some tank =>
      fold_left (fun ts j => strike ts i j) (seq 0 (length (shells tank)))
                tanks
  end.

Definition Level__handle_shell_collisions (self : Level) : Level :=
  let tanks := player self :: enemies self in
  match fold_left strike_all (seq 0 (length tanks)) tanks with
  | p :: es => set_enemies (set_player self p) es
  | [] => self
  end.

Section Frame.

Variable M : MathLib.

(** [Level.update].  The player is updated first; each enemy's update
    reads only [level.walls] and the (already updated) [level.player]. *)
Definition Level_update_tanks (dt : Q) (keys : Keys) (self : Level) : Level :=
  let self1 := set_player self (Tank_update M dt keys self (player self)) in
  set_enemies self1 (map (Tank_update M dt keys self1) (enemies self1)).

Definition Level_update (dt : Q) (keys : Keys) (self : Level)
  : Level * bool :=
  let self2 := Level_update_tanks dt keys self in
  let self3 := Level__handle_shell_collisions self2 in
  let self4 := set_enemies self3 (filter alive (enemies self3)) in
  let self5 := set_player_destroyed self4 (negb (alive (player self4))) in
  (self5, (Nat.eqb (length (enemies self5)) 0) && alive (player self5)).

End Frame.

(** The shells a level still reaches: those of its player and of the
    enemies in its list. *)
Definition level_shells (self : Level) : list Shell :=
  flat_map shells (player self :: enemies self).

(** *** Game loop: the level transition of [Game._update] *)

Record Game := mkGame {
  level_number : Z;
  level : Level;
  running : bool
}.

Section Controller.

Variable M : MathLib.
Variable G : RandomGen.

Definition Game_init : Game := mkGame 1 (Level_init G 1) true.

Definition Game__update (dt : Q) (keys : Keys) (self : Game) : Game :=
  let '(updated, level_complete) := Level_update M dt keys (level self) in
  if level_complete then
    mkGame (level_number self + 1) (Level_init G (level_number self + 1))
           (running self)
  else if player_destroyed updated then
    mkGame 1 (Level_init G 1) (running self)
  else mkGame (level_number self) updated (running self).

End Controller.

(** The operations on one tank that change its reload timer. *)
Inductive TankOp :=
| OpUpdate (dt : Q) (keys : Keys) (level : Level)
| OpFire.

Definition run_op (M : MathLib) (t : Tank) (op : TankOp) : Tank :=
  match op with
  | OpUpdate dt keys level => Tank_update M dt keys level t
  | OpFire => Tank_fire M t
  end.

Definition run_ops (M : MathLib) (t : Tank) (ops : list TankOp) : Tank :=
  fold_left (run_op M) ops t.

(** ** Concrete libraries, for running the model

    The theorems below hold for every [MathLib] and every [RandomGen].
    To run the model on concrete states one instance of each is fixed:
    rational approximations of the trigonometric functions that are exact
    on the four axis directions, and Python's own generator. *)

Module Approx.

Local Open Scope Q_scope.

Definition pi : Q := 355 # 113.

Definition radians (d : Q) : Q := Qred (d * pi / 180).
Definition degrees (r : Q) : Q := Qred (r * 180 / pi).

(** Bhaskara's rational approximation of the sine on [0, 180] degrees. *)
Definition sin_half_turn (d : Q) : Q :=
  4 * d * (180 - d) / (40500 - d * (180 - d)).

Definition sin_deg (d : Q) : Q :=
  let r := py_mod d 360 in
  if Qlt_le_dec 180 r then - sin_half_turn (r - 180) else sin_half_turn r.

Definition cos_deg (d : Q) : Q := sin_deg (d + 90).

Definition sin (r : Q) : Q := Qred (sin_deg (degrees r)).
Definition cos (r : Q) : Q := Qred (cos_deg (degrees r)).

(** Arctangent in degrees on [-1, 1], exact at -1, 0 and 1. *)
Definition atan_unit (z : Q) : Q :=
  45 * z - z * (Qabs z - 1) * ((1402 # 100) + (380 # 100) * Qabs z).

Definition atan_deg (z : Q) : Q :=
  if Qlt_le_dec 1 (Qabs z) then
    (if Qlt_le_dec 0 z then 90 else -90) - atan_unit (/ z)
  else atan_unit z.

Definition atan2_deg (y x : Q) : Q :=
  if Qlt_le_dec 0 x then atan_deg (y / x)
  else if Qlt_le_dec x 0 then
    (if Qlt_le_dec y 0 then atan_deg (y / x) - 180 else atan_deg (y / x) + 180)
  else if Qlt_le_dec 0 y then 90
  else if Qlt_le_dec y 0 then -90
  else 0.

Definition atan2 (y x : Q) : Q := radians (atan2_deg y x).

(** Square root to six decimals, exact on squares of integers. *)
Definition sqrt (q : Q) : Q :=
  if Qlt_le_dec 0 q then
    Qred (Z.sqrt (Qnum q * Zpos (Qden q) * 1000000000000)
          # (Qden q * 1000000))
  else 0.

Definition math : MathLib := mkMathLib radians degrees cos sin atan2 sqrt.

End Approx.

(** Python's [random.Random]: the Mersenne Twister MT19937 of CPython's
    [_randommodule.c] with the seeding of an integer, [random()] and
    [randint] as [random.py] builds it on [getrandbits]. *)
Module Mt.

Definition N : nat := 624.
Definition M : nat := 397.
Definition MATRIX_A : Z := 0x9908b0df.
Definition UPPER_MASK : Z := 0x80000000.
Definition LOWER_MASK : Z := 0x7fffffff.

(** Arithmetic on [uint32_t] wraps modulo 2^32. *)
Definition u32 (z : Z) : Z := z mod 0x100000000.

Record state := mkState { mt : list Z; index : nat }.

Definition get (a : list Z) (i : nat) : Z := nth i a 0.
Definition set (a : list Z) (i : nat) (v : Z) : list Z :=
  update_nth i (fun _ => v) a.

(** [init_genrand] *)
Fixpoint init_genrand_loop (n mti : nat) (a : list Z) : list Z :=
  match n with
  | O => a
  | S n' =>
      let prev := get a (mti - 1) in
      init_genrand_loop n' (S mti)
        (set a mti
             (u32 (1812433253 * Z.lxor prev (Z.shiftr prev 30) + Z.of_nat mti)))
  end.

Definition init_genrand (s : Z) : list Z :=
  init_genrand_loop (N - 1) 1 (set (repeat 0 N) 0 (u32 s)).

(** The two loops of [init_by_array]; [k] counts the iterations left. *)
Fixpoint init_key_loop (k i j : nat) (key a : list Z) : list Z * nat :=
  match k with
  | O => (a, i)
  | S k' =>
      let prev := get a (i - 1) in
      let v := u32 (Z.lxor (get a i)
                           (u32 (Z.lxor prev (Z.shiftr prev 30) * 1664525))
                    + get key j + Z.of_nat j) in
      let a1 := set a i v in
      let a2 := if (N <=? S i)%nat then set a1 0 (get a1 (N - 1)) else a1 in
      let i2 := if (N <=? S i)%nat then 1%nat else S i in
      let j2 := if (length key <=? S j)%nat then O else S j in
      init_key_loop k' i2 j2 key a2
  end.

Fixpoint init_mix_loop (k i : nat) (a : list Z) : list Z :=
  match k with
  | O => a
  | S k' =>
      let prev := get a (i - 1) in
      let v := u32 (Z.lxor (get a i)
                           (u32 (Z.lxor prev (Z.shiftr prev 30) * 1566083941))
                    - Z.of_nat i) in
      let a1 := set a i v in
      let a2 := if (N <=? S i)%nat then set a1 0 (get a1 (N - 1)) else a1 in
      let i2 := if (N <=? S i)%nat then 1%nat else S i in
      init_mix_loop k' i2 a2
  end.

Definition init_by_array (key : list Z) : state :=
  let a0 := init_genrand 19650218 in
  let '(a1, i) := init_key_loop (Nat.max N (length key)) 1 0 key a0 in
  let a2 := init_mix_loop (N - 1) i a1 in
  mkState (set a2 0 0x80000000) N.

(** [random_seed] for an integer: the 32-bit chunks of its absolute
    value, least significant first. *)
Fixpoint chunks (fuel : nat) (n : Z) : list Z :=
  match fuel with
  | O => []
  | S fuel' => if n =? 0 then [] else u32 n :: chunks fuel' (Z.shiftr n 32)
  end.

Definition seed (a : Z) : state :=
  let n := Z.abs a in
  let key := if n =? 0 then [0] else chunks (S (Z.to_nat (Z.log2 n))) n in
  init_by_array key.

(** One step of the regeneration of the state array. *)
Definition twist_at (a : list Z) (kk next from : nat) : list Z :=
  let y := Z.lor (Z.land (get a kk) UPPER_MASK) (Z.land (get a next) LOWER_MASK) in
  set a kk (Z.lxor (Z.lxor (get a from) (Z.shiftr y 1))
                   (if Z.odd y then MATRIX_A else 0)).

Fixpoint twist_loop (n kk : nat) (a : list Z) : list Z :=
  match n with
  | O => a
  | S n' =>
      let from := if (kk <? N - M)%nat then (kk + M)%nat else (kk + M - N)%nat in
      twist_loop n' (S kk) (twist_at a kk (S kk) from)
  end.

Definition twist (a : list Z) : list Z :=
  twist_at (twist_loop (N - 1) 0 a) (N - 1) 0 (M - 1).

Definition temper (y0 : Z) : Z :=
  let y1 := Z.lxor y0 (Z.shiftr y0 11) in
  let y2 := Z.lxor y1 (Z.land (Z.shiftl y1 7) 0x9d2c5680) in
  let y3 := Z.lxor y2 (Z.land (Z.shiftl y2 15) 0xefc60000) in
  u32 (Z.lxor y3 (Z.shiftr y3 18)).

Definition genrand_uint32 (s : state) : Z * state :=
  let s1 := if (N <=? index s)%nat then mkState (twist (mt s)) O else s in
  (temper (get (mt s1) (index s1)), mkState (mt s1) (S (index s1))).

(** [random()] *)
Definition random (s : state) : Q * state :=
  let '(x, s1) := genrand_uint32 s in
  let '(y, s2) := genrand_uint32 s1 in
  let a := Z.shiftr x 5 in
  let b := Z.shiftr y 6 in
  (Qmake (a * 67108864 + b) 9007199254740992, s2).

(** [getrandbits(k)] for [0 < k <= 32]. *)
Definition getrandbits (k : Z) (s : state) : Z * state :=
  let '(x, s1) := genrand_uint32 s in (Z.shiftr x (32 - k), s1).

Definition bit_length (n : Z) : Z := if n =? 0 then 0 else Z.log2 n + 1.

(** [_randbelow_with_getrandbits(n)]: draw until the value is below [n].
    Python's loop has no bound; a draw fails with probability below one
    half, and the model stops after [fuel] failures with 0. *)
Fixpoint randbelow_loop (fuel : nat) (n k : Z) (s : state) : Z * state :=
  match fuel with
  | O => (0, s)
  | S fuel' =>
      let '(r, s1) := getrandbits k s in
      if r <? n then (r, s1) else randbelow_loop fuel' n k s1
  end.

Definition randbelow (n : Z) (s : state) : Z * state :=
  randbelow_loop 1000 n (bit_length n) s.

(** [randint(a, b)], which is [randrange(a, b + 1)]. *)
Definition randint (a b : Z) (s : state) : Z * state :=
  let '(r, s1) := randbelow (b + 1 - a) s in (a + r, s1).


Lemma temper_range (y : Z) : 0 <= temper y < 0x100000000.
Proof. unfold temper, u32. apply Z.mod_pos_bound. reflexivity. Qed.

Lemma genrand_range (s : state) : 0 <= fst (genrand_uint32 s) < 0x100000000.
Proof. unfold genrand_uint32. cbn [fst]. apply temper_range. Qed.

Lemma random_range (s : state) :
  (0 <= fst (random s))%Q /\ (fst (random s) < 1)%Q.
Proof.
  unfold random.
  pose proof (genrand_range s) as Hx.
  destruct (genrand_uint32 s) as [x s1].
  pose proof (genrand_range s1) as Hy.
  destruct (genrand_uint32 s1) as [y s2]. cbn [fst] in *.
  rewrite !Z.shiftr_div_pow2 by lia.
  change (2 ^ 5) with 32. change (2 ^ 6) with 64.
  assert (0 <= x / 32 < 134217728)
    by (split; [apply Z.div_pos | apply Z.div_lt_upper_bound]; lia).
  assert (0 <= y / 64 < 67108864)
    by (split; [apply Z.div_pos | apply Z.div_lt_upper_bound]; lia).
  unfold Qle, Qlt. cbn [Qnum Qden]. lia.
Qed.

Lemma randbelow_loop_range (fuel : nat) (n k : Z) :
  forall s, 0 < n -> 0 <= fst (randbelow_loop fuel n k s) < n.
Proof.
  induction fuel as [|fuel IH]; intros s Hn; cbn [randbelow_loop].
  - cbn [fst]. lia.
  - unfold getrandbits.
    pose proof (genrand_range s) as Hx.
    destruct (genrand_uint32 s) as [x s1]. cbn [fst] in Hx.
    destruct (Z.shiftr x (32 - k) <? n) eqn:E.
    + cbn [fst]. apply Z.ltb_lt in E. split; [|exact E].
      apply Z.shiftr_nonneg. lia.
    + apply IH. exact Hn.
Qed.

Lemma randint_range (a b : Z) (s : state) :
  a <= b -> a <= fst (randint a b s) /\ fst (randint a b s) <= b.
Proof.
  intros Hab. unfold randint, randbelow.
  pose proof (randbelow_loop_range 1000 (b + 1 - a) (bit_length (b + 1 - a)) s)
    as H.
  destruct (randbelow_loop 1000 (b + 1 - a) (bit_length (b + 1 - a)) s)
    as [r s1].
  cbn [fst] in *. lia.
Qed.

Definition gen : RandomGen :=
  mkRandomGen state seed random randint random_range randint_range.

End Mt.

(** ** Concrete states *)

Definition no_keys : Keys :=
  mkKeys false false false false false false false false.

(** An enemy heading east (angle 0) with the player due west of it. *)
Definition west_level : Level :=
  mkLevel 1 []
          []
          (set_position new_player (mkVector2 100 300))
          false.



(** A tank deep inside the right one of two adjacent wall tiles. *)
Definition adjacent_walls : list Rect :=
  [mkRect 48 48 48 48; mkRect 96 48 48 48].

Definition tank_in_right_tile : Tank :=
  new_enemy 1 (mkVector2 116 68).



(** One iteration of the wall loop, as a function of the tank alone. *)
Definition wall_step (self : Tank) (wall : Rect) : Tank :=
  match Tank_rect self with
  | Some rect =>
      if colliderect rect wall then resolve_wall self rect wall else self
  | None => self
  end.


(** ** Vocabulary for the generator's draws *)

Definition rect_eqb (a b : Rect) : bool :=
  (rx a =? rx b) && (ry a =? ry b) && (rw a =? rw b) && (rh a =? rh b).

(** How many entries of a wall list are the rectangle [r]. *)
Definition count_rect (r : Rect) (ws : list Rect) : nat :=
  length (filter (rect_eqb r) ws).

(** The tiles the two nested loops of [generate_map] visit, in order. *)
Definition drawn_tiles : list (Z * Z) :=
  flat_map (fun y => map (fun x => (x, y)) (py_range 0 GRID_WIDTH))
           (py_range 1 (GRID_HEIGHT - 1)).

(** The tile under the player's spawn point. *)
Definition spawn_tile : Z * Z :=
  (py_int (py_floordiv (vx (position new_player)) (inject_Z TILE_SIZE)),
   py_int (py_floordiv (vy (position new_player)) (inject_Z TILE_SIZE))).

(** Whether the candidate rectangle at [p] overlaps some wall. *)
Definition overlaps_wall (ws : list Rect) (p : Vector2) : bool :=
  existsb (fun wall => colliderect (candidate_rect p) wall) ws.

Section Draws.

Variable G : RandomGen.

(** One wall draw per tile of a list, in order. *)
Fixpoint scatter (tiles : list (Z * Z)) (rng : rng_state G) (ws : list Rect)
  : list Rect * rng_state G :=
  match tiles with
  | [] => (ws, rng)
  | (x, y) :: rest =>
      let '(r, rng') := rng_random G rng in
      scatter rest rng'
              (if Qlt_le_dec r (12 # 100) then ws ++ [tile_rect x y] else ws)
  end.

(** The generator after [n] calls of [random()]. *)
Fixpoint skip_draws (n : nat) (rng : rng_state G) : rng_state G :=
  match n with
  | O => rng
  | S k => skip_draws k (snd (rng_random G rng))
  end.

(** The generator after [n] placement attempts (two [randint] each). *)
Fixpoint after_attempts (n : nat) (rng : rng_state G) : rng_state G :=
  match n with
  | O => rng
  | S k => after_attempts k (snd (draw_candidate G rng))
  end.

(** The tile and the position of attempt number [n] (from 0). *)
Definition nth_tile (n : nat) (rng : rng_state G) : Z * Z :=
  fst (draw_candidate G (after_attempts n rng)).

Definition nth_candidate (n : nat) (rng : rng_state G) : Vector2 :=
  candidate_position (fst (nth_tile n rng)) (snd (nth_tile n rng)).

End Draws.





(** A frame in which the player's shell strikes an enemy that has a
    shell of its own in flight; a second enemy stands further up. *)
Definition shell_from_player : Shell :=
  mkShell (mkVector2 480 320) (mkVector2 0 (-400)) 0 6 true.

Definition shell_from_enemy : Shell :=
  mkShell (mkVector2 480 400) (mkVector2 0 400) 1 6 true.

Definition near_enemy : Tank :=
  set_shells (set_reload_time (new_enemy 1 (mkVector2 480 300)) (3 # 10))
             [shell_from_enemy].

Definition far_enemy : Tank :=
  set_reload_time (new_enemy 2 (mkVector2 480 100)) (3 # 10).

Definition duel_level : Level :=
  mkLevel 1 border_walls [near_enemy; far_enemy]
          (set_shells new_player [shell_from_player]) false.

(** ** Vocabulary for sequences of tank operations *)



(** Whether a point lies in the arena [0, SCREEN_WIDTH] x [0, SCREEN_HEIGHT]. *)
Definition in_arena (p : Vector2) : Prop :=
  (0 <= vx p /\ vx p <= inject_Z SCREEN_WIDTH /\
   0 <= vy p /\ vy p <= inject_Z SCREEN_HEIGHT)%Q.

(** The fields of a tank that no update, shot or collision changes. *)
Definition same_build (t t' : Tank) : Prop :=
  ident t' = ident t /\ color t' = color t /\ speed t' = speed t /\
  rotation_speed t' = rotation_speed t /\ is_player t' = is_player t /\
  shell_cooldown t' = shell_cooldown t /\ size t' = size t.

(** ** Vocabulary for the shell-collision pass *)

(** [s] is [s0] later in the pass: the same shell, possibly dead by now. *)
Definition shell_ages (s0 s : Shell) : Prop :=
  shell_position s = shell_position s0 /\
  shell_velocity s = shell_velocity s0 /\
  shell_owner s = shell_owner s0 /\
  shell_radius s = shell_radius s0 /\
  (shell_alive s = true -> shell_alive s0 = true).

(** [t] is [t0] later in the pass: nothing moved, nothing revived. *)
Definition tank_ages (t0 t : Tank) : Prop :=
  same_build t0 t /\
  position t = position t0 /\ angle t = angle t0 /\
  reload_time t = reload_time t0 /\
  (alive t = true -> alive t0 = true) /\
  Forall2 shell_ages (shells t0) (shells t).

(** [t0] has a live shell of another owner inside its rectangle. *)
Definition struck_by (tanks0 : list Tank) (t0 : Tank) : Prop :=
  exists holder s0 rect,
    In holder tanks0 /\ In s0 (shells holder) /\
    shell_alive s0 = true /\
    shell_owner s0 <> ident t0 /\
    Tank_rect t0 = Some rect /\
    collidepoint rect (vx (shell_position s0)) (vy (shell_position s0)) = true.

Definition live_tanks (tanks : list Tank) : nat :=
  length (filter alive tanks).

Definition live_shells (tanks : list Tank) : nat :=
  length (filter shell_alive (flat_map shells tanks)).

Definition set_shell_dead (s : Shell) : Shell :=
  mkShell (shell_position s) (shell_velocity s) (shell_owner s)
          (shell_radius s) false.
(** The invariant of the pass, relative to the tanks it started from. *)
Definition pass_inv (tanks0 tanks : list Tank) : Prop :=
  Forall2 (fun t0 t =>
             tank_ages t0 t /\
             (alive t0 = true -> alive t = false -> struck_by tanks0 t0))
          tanks0 tanks.

(** The head counts of a pass, relative to its start: as many tanks
    fewer as shells fewer. *)
Definition counts_inv (tanks0 tanks : list Tank) : Prop :=
  (live_tanks tanks + live_shells tanks0
   = live_tanks tanks0 + live_shells tanks)%nat /\
  (live_tanks tanks <= live_tanks tanks0)%nat.

(** What a frame keeps of a tank: its build, and death. *)
Definition carried_over (t t' : Tank) : Prop :=
  same_build t t' /\ (alive t' = true -> alive t = true).

(** A rectangle that lies inside the screen. *)
Definition in_screen (r : Rect) : Prop :=
  0 <= rx r /\ rx r + rw r <= SCREEN_WIDTH /\
  0 <= ry r /\ ry r + rh r <= SCREEN_HEIGHT.

(** Whether a rectangle is the wall of a grid tile. *)
Definition grid_tile (r : Rect) : Prop :=
  exists x y, 0 <= x < GRID_WIDTH /\ 0 <= y < GRID_HEIGHT /\ r = tile_rect x y.

(** An enemy as [spawn_enemies] leaves it: a fresh tank at the centre of
    a tile of rows 1 to [GRID_HEIGHT // 2], off the border columns, whose
    candidate rectangle overlaps none of the walls [ws]. *)
Definition well_placed (ws : list Rect) (e : Tank) : Prop :=
  alive e = true /\ is_player e = false /\ size e = (36, 36) /\
  shells e = [] /\ reload_time e = 0%Q /\
  shell_cooldown e = SHELL_COOLDOWN /\
  exists x y,
    1 <= x <= GRID_WIDTH - 2 /\ 1 <= y <= GRID_HEIGHT / 2 /\
    position e = candidate_position x y /\
    overlaps_wall ws (position e) = false.

(** ** The game loop *)

(** The events [Game._handle_events] tells apart. *)
Inductive Key := K_ESCAPE | K_SPACE | K_OTHER.

Inductive Event :=
| QUIT
| KEYDOWN (key : Key)
| OTHER_EVENT.

(** What one iteration of [Game.run] receives from pygame: the frame
    time of the clock, the queued events, and the keyboard state. *)
Record Frame := mkFrame {
  frame_dt : Q;
  frame_events : list Event;
  frame_keys : Keys
}.

Section Loop.

Variable M : MathLib.
Variable G : RandomGen.

Definition handle_event (self : Game) (event : Event) : Game :=
  match event with
  | QUIT => mkGame (level_number self) (level self) false
  | KEYDOWN K_ESCAPE => mkGame (level_number self) (level self) false
  | KEYDOWN K_SPACE =>
      mkGame (level_number self)
             (set_player (level self) (Tank_fire M (player (level self))))
             (running self)
  | _ => self
  end.

(** [Game._handle_events] *)
Definition Game__handle_events (events : list Event) (self : Game) : Game :=
  fold_left handle_event events self.

(** The body of the loop of [Game.run], without the drawing. *)
Definition Game_frame (f : Frame) (self : Game) : Game :=
  Game__update M G (frame_dt f) (frame_keys f)
               (Game__handle_events (frame_events f) self).

(** [Game.run] over the frames pygame delivers: the loop ends at the
    first test of [running] that fails. *)
Fixpoint Game_run (frames : list Frame) (self : Game) : Game :=
  match frames with
  | [] => self
  | f :: rest =>
      if running self then Game_run rest (Game_frame f self) else self
  end.

End Loop.

(** Every shell in the tank's list names the tank as its owner. *)
Definition owned (t : Tank) : Prop :=
  Forall (fun s => shell_owner s = ident t) (shells t).

Definition timer_ok (t : Tank) : Prop :=
  (0 <= reload_time t /\ reload_time t <= shell_cooldown t)%Q.

(** What every tank of a running game satisfies between two frames. *)
Definition fit (t : Tank) : Prop :=
  alive t = true /\ size t = (36, 36) /\ owned t /\ timer_ok t.

(** What the level of a running game satisfies between two frames. *)
Definition level_ok (G : RandomGen) (n : Z) (l : Level) : Prop :=
  number l = n /\
  walls l = walls (Level_init G n) /\
  is_player (player l) = true /\
  Forall (fun e => is_player e = false) (enemies l) /\
  Forall fit (player l :: enemies l) /\
  NoDup (map ident (player l :: enemies l)) /\
  (length (enemies l) <= Z.to_nat (enemy_count n))%nat.

(** What a frame keeps of a tank, beyond [same_build]. *)
Definition kept (t t' : Tank) : Prop :=
  same_build t t' /\ (owned t -> owned t') /\ (timer_ok t -> timer_ok t').

(** Events that end the game: closing the window or pressing Escape. *)
Definition ends_game (e : Event) : bool :=
  match e with
  | QUIT | KEYDOWN K_ESCAPE => true
  | _ => false
  end.

(** Events that make the player fire: pressing Space. *)
Definition is_space (e : Event) : bool :=
  match e with
  | KEYDOWN K_SPACE => true
  | _ => false
  end.

(** * Properties *)

(** ** Python numerics *)

Lemma py_max_spec (a b : Q) :
  (a <= py_max a b /\ b <= py_max a b /\ (py_max a b == a \/ py_max a b == b))%Q.
Proof.
  unfold py_max. destruct (Qlt_le_dec a b).
  - repeat split; lra.
  - repeat split; lra.
Qed.

Lemma py_min_spec (a b : Q) :
  (py_min a b <= a /\ py_min a b <= b /\ (py_min a b == a \/ py_min a b == b))%Q.
Proof.
  unfold py_min. destruct (Qlt_le_dec b a).
  - repeat split; lra.
  - repeat split; lra.
Qed.

(** With ordered bounds [clamp] lands between them. *)
Lemma clamp_range (v lo hi : Q) :
  (lo <= hi -> lo <= clamp v lo hi /\ clamp v lo hi <= hi)%Q.
Proof.
  intros H. unfold clamp, py_max, py_min.
  destruct (Qlt_le_dec hi v); destruct (Qlt_le_dec lo _); split; lra.
Qed.



Lemma py_mod_period (x m : Q) :
  (py_mod x m == x - m * inject_Z (Qfloor (x / m)))%Q.
Proof. reflexivity. Qed.

(** ** Fields that the tank operations leave alone *)

Lemma wall_loop_moves_only (walls : list Rect) :
  forall self rect, exists p, wall_loop self rect walls = set_position self p.
Proof.
  induction walls as [|wall rest IH]; intros self rect; simpl.
  - exists (position self). destruct self; reflexivity.
  - destruct (colliderect rect wall).
    + assert (Hr : exists q, resolve_wall self rect wall = set_position self q).
      { unfold resolve_wall.
        repeat match goal with |- context [if ?c then _ else _] => destruct c end;
          eexists; reflexivity. }
      destruct Hr as [q Hq]. rewrite Hq.
      destruct (Tank_rect (set_position self q)) as [rect'|].
      * destruct (IH (set_position self q) rect') as [p Hp].
        exists p. rewrite Hp. reflexivity.
      * exists q. reflexivity.
    + apply IH.
Qed.

Lemma handle_wall_collisions_moves_only (self : Tank) (walls : list Rect) :
  exists p, Tank__handle_wall_collisions self walls = set_position self p.
Proof.
  unfold Tank__handle_wall_collisions. destruct (Tank_rect self) as [rect|].
  - apply wall_loop_moves_only.
  - exists (position self). destruct self; reflexivity.
Qed.

Section TankFacts.

Variable M : MathLib.

Lemma fire_timer (self : Tank) :
  shell_cooldown (Tank_fire M self) = shell_cooldown self /\
  (reload_time (Tank_fire M self) = reload_time self \/
   reload_time (Tank_fire M self) = shell_cooldown self).
Proof.
  unfold Tank_fire.
  destruct ((if Qlt_le_dec 0 (reload_time self) then true else false)
            || negb (alive self)); simpl; auto.
Qed.


Lemma update_player_timer (dt : Q) (keys : Keys) (level : Level) (self : Tank) :
  shell_cooldown (Tank__update_player M dt keys level self) = shell_cooldown self /\
  reload_time (Tank__update_player M dt keys level self) = reload_time self.
Proof.
  unfold Tank__update_player.
  destruct (K_a keys || K_LEFT keys), (K_d keys || K_RIGHT keys);
    match goal with |- context [if ?c then _ else _] => destruct c end;
    simpl; auto.
Qed.

Lemma update_enemy_timer (dt : Q) (level : Level) (self : Tank) :
  shell_cooldown (Tank__update_enemy M dt level self) = shell_cooldown self /\
  (reload_time (Tank__update_enemy M dt level self) = reload_time self \/
   reload_time (Tank__update_enemy M dt level self) = shell_cooldown self).
Proof.
  unfold Tank__update_enemy.
  set (direction := vsub (position (player level)) (position self)).
  set (self1 := if Qlt_le_dec 1 (length_squared direction) then _ else self).
  set (self2 := if Qlt_le_dec _ (vlength M direction) then _ else self1).
  assert (H1 : shell_cooldown self1 = shell_cooldown self /\
               reload_time self1 = reload_time self).
  { subst self1. destruct (Qlt_le_dec 1 (length_squared direction)); simpl; auto. }
  assert (H2 : shell_cooldown self2 = shell_cooldown self /\
               reload_time self2 = reload_time self).
  { subst self2. destruct (Qlt_le_dec _ (vlength M direction)); simpl; auto. }
  destruct H2 as [Hc Hr].
  destruct ((if Qlt_le_dec (vlength M direction) (inject_Z SCREEN_WIDTH)
             then true else false) && Qle_bool (reload_time self2) 0).
  - destruct (fire_timer self2) as [Fc Fr]. rewrite Fc, Hc. split; [reflexivity|].
    destruct Fr as [Fr|Fr]; rewrite Fr; auto.
  - auto.
Qed.


End TankFacts.

(** ** Reload timer *)

Section ReloadTimer.

Variable M : MathLib.

Lemma fire_keeps_timer_in_range (t : Tank) :
  (0 <= reload_time t /\ reload_time t <= shell_cooldown t)%Q ->
  (0 <= reload_time (Tank_fire M t) /\
   reload_time (Tank_fire M t) <= shell_cooldown (Tank_fire M t))%Q /\
  shell_cooldown (Tank_fire M t) = shell_cooldown t.
Proof.
  intros [H0 H1]. destruct (fire_timer M t) as [Hc [Hr|Hr]];
    rewrite Hc, Hr; repeat split; lra.
Qed.

Lemma update_keeps_timer_in_range (dt : Q) (keys : Keys) (level : Level)
  (t : Tank) :
  (0 <= reload_time t /\ reload_time t <= shell_cooldown t)%Q ->
  (0 <= reload_time (Tank_update M dt keys level t) /\
   reload_time (Tank_update M dt keys level t)
   <= shell_cooldown (Tank_update M dt keys level t))%Q /\
  shell_cooldown (Tank_update M dt keys level t) = shell_cooldown t.
Proof.
  intros [H0 H1]. unfold Tank_update.
  destruct (alive t); cbv beta iota zeta;
    [|simpl; repeat split; assumption].
  set (s0 := set_reload_time t (clamp (reload_time t - dt) 0 (shell_cooldown t))).
  assert (Hs0 : (0 <= reload_time s0 /\ reload_time s0 <= shell_cooldown t)%Q).
  { subst s0. simpl. apply clamp_range. lra. }
  assert (Hc0 : shell_cooldown s0 = shell_cooldown t) by reflexivity.
  set (s1 := if is_player s0 then Tank__update_player M dt keys level s0
             else Tank__update_enemy M dt level s0).
  assert (Hs1 : shell_cooldown s1 = shell_cooldown t /\
                (0 <= reload_time s1 /\ reload_time s1 <= shell_cooldown t)%Q).
  { subst s1. destruct (is_player s0).
    - destruct (update_player_timer M dt keys level s0) as [Hc Hr].
      rewrite Hc, Hr. auto.
    - destruct (update_enemy_timer M dt level s0) as [Hc [Hr|Hr]];
        rewrite Hc, Hr; split; auto. rewrite Hc0. lra. }
  destruct (handle_wall_collisions_moves_only s1 (walls level)) as [p Hp].
  rewrite Hp. simpl. destruct Hs1 as [Hc Hr]. rewrite Hc. auto.
Qed.

(** C8.  Starting from a reload timer inside [0, cooldown] (every tank
    the game creates starts at 0 with cooldown 0.6), any sequence of
    [Tank.update] and [Tank.fire] calls, whatever the frame times, keys
    and levels, leaves the timer inside [0, cooldown], and the cooldown
    constant itself unchanged. *)
Theorem C8_reload_timer_within_cooldown (ops : list TankOp) (t : Tank) :
  (0 <= reload_time t /\ reload_time t <= shell_cooldown t)%Q ->
  (0 <= reload_time (run_ops M t ops) /\
   reload_time (run_ops M t ops) <= shell_cooldown (run_ops M t ops))%Q /\
  shell_cooldown (run_ops M t ops) = shell_cooldown t.
Proof.
  revert t. unfold run_ops.
  induction ops as [|op ops IH]; intros t Ht; simpl.
  - split; [assumption | reflexivity].
  - assert (Hstep : (0 <= reload_time (run_op M t op) /\
                     reload_time (run_op M t op) <= shell_cooldown (run_op M t op))%Q
                    /\ shell_cooldown (run_op M t op) = shell_cooldown t).
    { destruct op as [dt keys level|]; simpl.
      - apply update_keeps_timer_in_range; assumption.
      - apply fire_keeps_timer_in_range; assumption. }
    destruct Hstep as [Hr Hc].
    destruct (IH _ Hr) as [Hr' Hc']. split; [assumption | congruence].
Qed.

End ReloadTimer.

Lemma C8_witness_player_fires_and_reloads :
  let ops := [OpFire; OpUpdate (1 # 60) no_keys west_level; OpFire;
              OpUpdate (1 # 2) no_keys west_level;
              OpUpdate (1 # 2) no_keys west_level; OpFire] in
  ((0 <= reload_time (run_ops Approx.math new_player ops) /\
    reload_time (run_ops Approx.math new_player ops)
    <= shell_cooldown (run_ops Approx.math new_player ops))%Q /\
   shell_cooldown (run_ops Approx.math new_player ops)
   = shell_cooldown new_player).
Proof.
  cbv zeta.
  apply (C8_reload_timer_within_cooldown Approx.math).
  split; vm_compute; discriminate.
Defined.

(** ** Pursuit steering *)






(** ** Wall-collision resolution *)

Lemma wall_step_no_rect (walls : list Rect) (self : Tank) :
  Tank_rect self = None -> fold_left wall_step walls self = self.
Proof.
  intros H. induction walls as [|w rest IH]; simpl; [reflexivity|].
  unfold wall_step at 2. rewrite H. exact IH.
Qed.

Lemma wall_loop_is_fold (walls : list Rect) :
  forall self rect,
    Tank_rect self = Some rect ->
    wall_loop self rect walls = fold_left wall_step walls self.
Proof.
  induction walls as [|w rest IH]; intros self rect H; simpl; [reflexivity|].
  unfold wall_step at 2. rewrite H.
  destruct (colliderect rect w).
  - destruct (Tank_rect (resolve_wall self rect w)) as [rect'|] eqn:E.
    + apply IH. exact E.
    + symmetry. apply wall_step_no_rect. exact E.
  - apply IH. exact H.
Qed.

(** The whole resolution is one left-to-right pass of [wall_step]. *)
Lemma handle_wall_collisions_is_fold (self : Tank) (walls : list Rect) :
  Tank__handle_wall_collisions self walls = fold_left wall_step walls self.
Proof.
  unfold Tank__handle_wall_collisions.
  destruct (Tank_rect self) as [rect|] eqn:E.
  - apply wall_loop_is_fold. exact E.
  - symmetry. apply wall_step_no_rect. exact E.
Qed.

Lemma handle_wall_collisions_snoc (self : Tank) (walls : list Rect) (w : Rect) :
  Tank__handle_wall_collisions self (walls ++ [w]) =
  wall_step (Tank__handle_wall_collisions self walls) w.
Proof.
  rewrite !handle_wall_collisions_is_fold, fold_left_app. reflexivity.
Qed.

(** C4, amended.  The resolution is a single pass over the walls in list
    order.  When it returns, either the rectangle is invalid, or the tank
    is where the pass over an initial segment [before] of the walls left
    it and no wall of the rest [after] overlaps the final rectangle;
    [before] is empty (nothing was corrected) or ends with the last wall
    that was corrected, which overlapped the rectangle current at its
    turn.  Walls ahead of that last one are not tested again. *)
Theorem C4_single_pass_over_walls (self : Tank) (walls : list Rect) :
  let self' := Tank__handle_wall_collisions self walls in
  Tank_rect self' = None \/
  exists rect' before after,
    Tank_rect self' = Some rect' /\
    walls = before ++ after /\
    self' = Tank__handle_wall_collisions self before /\
    (forall w, In w after -> colliderect rect' w = false) /\
    (before = [] \/
     exists earlier wall rect0,
       before = earlier ++ [wall] /\
       Tank_rect (Tank__handle_wall_collisions self earlier) = Some rect0 /\
       colliderect rect0 wall = true /\
       self' = resolve_wall (Tank__handle_wall_collisions self earlier)
                            rect0 wall).
Proof.
  cbv zeta. induction walls as [|w ws IH] using rev_ind.
  - destruct (Tank_rect (Tank__handle_wall_collisions self [])) as [r|] eqn:E;
      [right | left; reflexivity].
    exists r, [], []. repeat split; auto. intros w [].
  - rewrite handle_wall_collisions_snoc.
    set (mid := Tank__handle_wall_collisions self ws) in *.
    unfold wall_step.
    destruct (Tank_rect mid) as [r|] eqn:Emid.
    + destruct (colliderect r w) eqn:Ecol.
      * destruct (Tank_rect (resolve_wall mid r w)) as [r'|] eqn:E';
          [right | left; reflexivity].
        exists r', (ws ++ [w]), []. split; [reflexivity|].
        split; [symmetry; apply app_nil_r|].
        split.
        { rewrite handle_wall_collisions_snoc. fold mid.
          unfold wall_step. rewrite Emid, Ecol. reflexivity. }
        split; [intros x []|].
        right. exists ws, w, r. fold mid. auto.
      * right. destruct IH as [IH|IH]; [discriminate IH|].
        destruct IH as (r' & before & after & Hr' & Hws & Hmid & Hafter & Hlast).
        assert (r' = r) by congruence. subst r'.
        exists r, before, (after ++ [w]).
        split; [exact Emid|].
        split; [rewrite Hws, app_assoc; reflexivity|].
        split; [exact Hmid|].
        split.
        { intros x Hx. apply in_app_or in Hx. destruct Hx as [Hx|[Hx|[]]].
          - apply Hafter; exact Hx.
          - subst x. exact Ecol. }
        exact Hlast.
    + left. exact Emid.
Qed.

(** C4 as stated fails: a tank inside the right one of two adjacent
    walls is pushed left out of it, into the wall listed before, which is
    not tested again; the returned rectangle overlaps that wall. *)
Lemma C4_counterexample_pushed_into_earlier_wall :
  let self' := Tank__handle_wall_collisions tank_in_right_tile adjacent_walls in
  Tank_rect tank_in_right_tile = Some (mkRect 98 50 36 36) /\
  Tank_rect self' = Some (mkRect 60 50 36 36) /\
  In (mkRect 48 48 48 48) adjacent_walls /\
  colliderect (mkRect 60 50 36 36) (mkRect 48 48 48 48) = true.
Proof.
  cbv zeta. split; [vm_compute; reflexivity|].
  split; [vm_compute; reflexivity|].
  split; [left; reflexivity | vm_compute; reflexivity].
Qed.

(** On floats that are not negative, [int] is the floor, and shifting by
    a whole number shifts the result. *)
Lemma py_int_nonneg (q : Q) : (0 <= q)%Q -> py_int q = Qfloor q.
Proof.
  destruct q as [n d]. unfold Qle, py_int. simpl. intros H.
  apply Z.quot_div_nonneg; lia.
Qed.

Lemma Qfloor_unique (q : Q) (z : Z) :
  (inject_Z z <= q)%Q -> (q < inject_Z (z + 1))%Q -> Qfloor q = z.
Proof.
  intros Hlo Hhi.
  assert (H1 : z <= Qfloor q).
  { rewrite <- (Qfloor_Z z). apply Qfloor_resp_le. exact Hlo. }
  assert (H2 : Qfloor q < z + 1).
  { rewrite Zlt_Qlt. eapply Qle_lt_trans; [apply Qfloor_le | exact Hhi]. }
  lia.
Qed.

Lemma py_int_shift (q r : Q) (k : Z) :
  (0 <= q)%Q -> (0 <= r)%Q -> (r == q + inject_Z k)%Q ->
  py_int r = py_int q + k.
Proof.
  intros Hq Hr E. rewrite !py_int_nonneg by assumption.
  apply Qfloor_unique.
  - rewrite inject_Z_plus, E. pose proof (Qfloor_le q). lra.
  - rewrite !inject_Z_plus, E. pose proof (Qlt_floor q) as H.
    rewrite inject_Z_plus in H. lra.
Qed.

(** The scenario of C9 in general: with penetration depths 5, 40, 3 and
    50 the correction is the push by 3 along the top axis. *)
Lemma top_axis_push (self : Tank) (rect wall : Rect) :
  Tank_rect self = Some rect ->
  colliderect rect wall = true ->
  right wall - left rect = 5 ->
  right rect - left wall = 40 ->
  bottom wall - top rect = 3 ->
  bottom rect - top wall = 50 ->
  Tank__handle_wall_collisions self [wall] =
  set_position self
    (mkVector2 (vx (position self)) (vy (position self) + inject_Z 3)).
Proof.
  intros Hrect Hcol H1 H2 H3 H4.
  unfold Tank__handle_wall_collisions. rewrite Hrect. simpl wall_loop.
  rewrite Hcol.
  assert (E : resolve_wall self rect wall =
              set_position self
                (mkVector2 (vx (position self))
                           (vy (position self) + inject_Z 3))).
  { unfold resolve_wall. rewrite H1, H2, H3, H4. reflexivity. }
  rewrite E. destruct (Tank_rect (set_position _ _)); reflexivity.
Qed.

(** When the top edge [position.y - height / 2] is not negative (and the
    heights are positive), the push does clear the wall. *)
Lemma top_axis_push_clears_wall (self : Tank) (rect wall : Rect) :
  Tank_rect self = Some rect ->
  colliderect rect wall = true ->
  right wall - left rect = 5 ->
  right rect - left wall = 40 ->
  bottom wall - top rect = 3 ->
  bottom rect - top wall = 50 ->
  0 < snd (size self) -> 0 < rh wall ->
  (0 <= vy (position self) - inject_Z (snd (size self)) / 2)%Q ->
  exists rect',
    Tank_rect (Tank__handle_wall_collisions self [wall]) = Some rect' /\
    colliderect rect' wall = false.
Proof.
  intros Hrect Hcol H1 H2 H3 H4 Hh Hwh Hpos.
  rewrite (top_axis_push self rect wall) by assumption.
  unfold Tank_rect in *. simpl in *.
  destruct (size self) as [width height]. simpl in Hpos.
  destruct ((width =? 0) || (height =? 0) || negb (alive self));
    [discriminate|].
  injection Hrect as Hrect. subst rect.
  eexists. split; [reflexivity|].
  unfold right, left, bottom, top in *. simpl in *.
  assert (Hy : py_int (vy (position self) + inject_Z 3 - inject_Z height / 2)
               = py_int (vy (position self) - inject_Z height / 2) + 3).
  { apply py_int_shift; [exact Hpos | | ring].
    change (inject_Z 3) with 3%Q. revert Hpos.
    generalize (inject_Z height / 2)%Q (vy (position self)). intros; lra. }
  rewrite Hy. unfold colliderect in *. simpl in *.
  destruct ((width =? 0) || (height =? 0) || (rw wall =? 0) || (rh wall =? 0));
    [reflexivity|].
  apply andb_false_iff. left. apply andb_false_iff. left.
  apply andb_false_iff. right. apply Z.ltb_ge. lia.
Qed.


(** ** Map generation *)

Lemma In_py_range (a b x : Z) : In x (py_range a b) <-> a <= x < b.
Proof.
  unfold py_range. rewrite in_map_iff. split.
  - intros [i [Hi Hin]]. apply in_seq in Hin. lia.
  - intros H. exists (Z.to_nat (x - a)). split; [lia|].
    apply in_seq. lia.
Qed.

Lemma tile_rect_tile (x y : Z) :
  rx (tile_rect x y) / TILE_SIZE = x /\ ry (tile_rect x y) / TILE_SIZE = y.
Proof.
  unfold tile_rect, TILE_SIZE. simpl. split; apply Z.div_mul; discriminate.
Qed.

Lemma rect_eqb_eq (a b : Rect) : rect_eqb a b = true <-> a = b.
Proof.
  unfold rect_eqb. destruct a, b. simpl. split.
  - intros H. repeat (apply andb_true_iff in H; destruct H as [H ?]).
    apply Z.eqb_eq in H. f_equal; try assumption; apply Z.eqb_eq; assumption.
  - intros H. injection H as -> -> -> ->. rewrite !Z.eqb_refl. reflexivity.
Qed.

Section MapFacts.

Variable G : RandomGen.

Lemma map_row_is_scatter (y : Z) (xs : list Z) :
  forall rng ws,
    map_row G y xs rng ws = scatter G (map (fun x => (x, y)) xs) rng ws.
Proof.
  induction xs as [|x xs IH]; intros rng ws; simpl; [reflexivity|].
  destruct (rng_random G rng) as [r rng']. apply IH.
Qed.

Lemma scatter_app (tiles1 tiles2 : list (Z * Z)) :
  forall rng ws,
    scatter G (tiles1 ++ tiles2) rng ws =
    scatter G tiles2 (snd (scatter G tiles1 rng ws))
                     (fst (scatter G tiles1 rng ws)).
Proof.
  induction tiles1 as [|[x y] rest IH]; intros rng ws; simpl; [reflexivity|].
  destruct (rng_random G rng) as [r rng']. apply IH.
Qed.

Lemma map_rows_is_scatter (ys : list Z) :
  forall rng ws,
    map_rows G ys rng ws =
    scatter G (flat_map (fun y => map (fun x => (x, y)) (py_range 0 GRID_WIDTH))
                        ys) rng ws.
Proof.
  induction ys as [|y ys IH]; intros rng ws; cbn [map_rows flat_map];
    [reflexivity|].
  rewrite scatter_app, <- map_row_is_scatter.
  destruct (map_row G y (py_range 0 GRID_WIDTH) rng ws) as [ws' rng'].
  cbn [fst snd]. apply IH.
Qed.

(** Every tile of the list costs one draw. *)
Lemma scatter_draws (tiles : list (Z * Z)) :
  forall rng ws,
    snd (scatter G tiles rng ws) = skip_draws G (length tiles) rng.
Proof.
  induction tiles as [|[x y] rest IH]; intros rng ws; simpl; [reflexivity|].
  destruct (rng_random G rng) as [r rng']. simpl. apply IH.
Qed.

Lemma scatter_acc (tiles : list (Z * Z)) :
  forall rng ws,
    fst (scatter G tiles rng ws) = ws ++ fst (scatter G tiles rng []).
Proof.
  induction tiles as [|[x y] rest IH]; intros rng ws; simpl.
  - symmetry. apply app_nil_r.
  - destruct (rng_random G rng) as [r rng'].
    destruct (Qlt_le_dec r (12 # 100)).
    + rewrite IH. rewrite (IH rng' [tile_rect x y]).
      rewrite <- app_assoc. reflexivity.
    + apply IH.
Qed.

(** A wall placed by the draws sits on one of the visited tiles. *)
Lemma scatter_In (tiles : list (Z * Z)) :
  forall rng w,
    In w (fst (scatter G tiles rng [])) ->
    exists x y, In (x, y) tiles /\ w = tile_rect x y.
Proof.
  induction tiles as [|[x y] rest IH]; intros rng w; simpl; [intros []|].
  destruct (rng_random G rng) as [r rng'].
  destruct (Qlt_le_dec r (12 # 100)).
  - rewrite scatter_acc. intros H. apply in_app_or in H.
    destruct H as [[H|[]]|H].
    + exists x, y. split; [left; reflexivity | symmetry; exact H].
    + destruct (IH _ _ H) as (x' & y' & Hin & Hw). exists x', y'. auto.
  - intros H. destruct (IH _ _ H) as (x' & y' & Hin & Hw). exists x', y'. auto.
Qed.

(** The walls of a generated map: the drawn walls, then the border, with
    the spawn neighbourhood filtered out. *)
Lemma generate_map_walls (l : Level) :
  walls (Level_generate_map G l) =
  filter (fun wall =>
            negb (is_safe
                    (safe_tiles
                       (py_int (py_floordiv (vx (position (player l)))
                                            (inject_Z TILE_SIZE)))
                       (py_int (py_floordiv (vy (position (player l)))
                                            (inject_Z TILE_SIZE))))
                    wall))
         (fst (scatter G drawn_tiles (Random G (number l)) []) ++ border_walls).
Proof.
  unfold Level_generate_map. cbv zeta.
  change (walls (set_walls l [])) with (@nil Rect).
  change (number (set_walls l [])) with (number l).
  rewrite map_rows_is_scatter. fold drawn_tiles.
  destruct (scatter G drawn_tiles (Random G (number l)) []) as [ws rng].
  reflexivity.
Qed.

Lemma generate_map_keeps (l : Level) :
  number (Level_generate_map G l) = number l /\
  player (Level_generate_map G l) = player l /\
  enemies (Level_generate_map G l) = enemies l.
Proof.
  unfold Level_generate_map. cbv zeta.
  destruct (map_rows G _ _ _) as [ws rng].
  unfold Level__carve_player_spawn, set_walls.
  cbn [number player enemies]. auto.
Qed.

End MapFacts.

(** ** Enemy placement leaves the map alone *)

Section SpawnFacts.

Variable G : RandomGen.

Lemma place_enemy_keeps (n : nat) :
  forall self rng,
    number (fst (place_enemy G n self rng)) = number self /\
    walls (fst (place_enemy G n self rng)) = walls self /\
    player (fst (place_enemy G n self rng)) = player self.
Proof.
  induction n as [|n IH]; intros self rng; cbn [place_enemy]; [auto|].
  destruct (draw_candidate G rng) as [[x y] rng'].
  destruct (negb (existsb _ (walls self))); [cbn; auto | apply IH].
Qed.

Lemma place_enemies_keeps (n : nat) :
  forall self rng,
    number (fst (place_enemies G n self rng)) = number self /\
    walls (fst (place_enemies G n self rng)) = walls self /\
    player (fst (place_enemies G n self rng)) = player self.
Proof.
  induction n as [|n IH]; intros self rng; cbn [place_enemies]; [auto|].
  destruct (place_enemy_keeps 100 self rng) as (Hn & Hw & Hp).
  destruct (place_enemy G 100 self rng) as [self' rng'].
  cbn [fst] in *. destruct (IH self' rng') as (Hn' & Hw' & Hp').
  repeat split; congruence.
Qed.

Lemma spawn_enemies_keeps (self : Level) :
  number (Level_spawn_enemies G self) = number self /\
  walls (Level_spawn_enemies G self) = walls self /\
  player (Level_spawn_enemies G self) = player self.
Proof. unfold Level_spawn_enemies. apply place_enemies_keeps. Qed.

Lemma Level_init_walls (N : Z) :
  walls (Level_init G N) =
  walls (Level_generate_map G (mkLevel N [] [] new_player false)).
Proof. unfold Level_init. apply spawn_enemies_keeps. Qed.

End SpawnFacts.

(** ** Border and spawn neighbourhood *)

Lemma border_walls_cover (x y : Z) :
  0 <= x < GRID_WIDTH -> 0 <= y < GRID_HEIGHT ->
  x = 0 \/ x = GRID_WIDTH - 1 \/ y = 0 \/ y = GRID_HEIGHT - 1 ->
  In (tile_rect x y) border_walls.
Proof.
  intros Hx Hy Hb. unfold border_walls. apply in_or_app.
  destruct Hb as [Hb|[Hb|[Hb|Hb]]]; subst.
  - right. apply in_flat_map. exists y. split; [apply In_py_range; exact Hy|].
    left; reflexivity.
  - right. apply in_flat_map. exists y. split; [apply In_py_range; exact Hy|].
    right; left; reflexivity.
  - left. apply in_flat_map. exists x. split; [apply In_py_range; exact Hx|].
    left; reflexivity.
  - left. apply in_flat_map. exists x. split; [apply In_py_range; exact Hx|].
    right; left; reflexivity.
Qed.

Lemma border_walls_are_tiles (w : Rect) :
  In w border_walls -> exists x y, w = tile_rect x y.
Proof.
  unfold border_walls. intros H. apply in_app_or in H.
  destruct H as [H|H]; apply in_flat_map in H;
    destruct H as (z & _ & [H|[H|[]]]); subst w; eauto.
Qed.

(** A border tile is never carved. *)
Lemma border_tile_not_safe (tiles : list (Z * Z)) (x y : Z) :
  x = 0 \/ x = GRID_WIDTH - 1 \/ y = 0 \/ y = GRID_HEIGHT - 1 ->
  is_safe tiles (tile_rect x y) = false.
Proof.
  intros Hb. unfold is_safe. destruct (tile_rect_tile x y) as [-> ->].
  assert (E : (x =? 0) || (x =? GRID_WIDTH - 1) || (y =? 0)
              || (y =? GRID_HEIGHT - 1) = true).
  { destruct Hb as [Hb|[Hb|[Hb|Hb]]]; subst; rewrite ?Z.eqb_refl, ?orb_true_r;
      reflexivity. }
  rewrite E. reflexivity.
Qed.

(** Two wall tiles overlap only when they are the same tile. *)
Lemma tile_rects_collide (a b x y : Z) :
  colliderect (tile_rect a b) (tile_rect x y) = true -> a = x /\ b = y.
Proof.
  unfold colliderect, tile_rect, TILE_SIZE. cbn [rx ry rw rh].
  change ((48 =? 0) || (48 =? 0) || (48 =? 0) || (48 =? 0)) with false.
  cbv iota. intros H.
  repeat (apply andb_true_iff in H; destruct H as [H ?]).
  rewrite Z.ltb_lt in *. rewrite Z.gtb_lt in *. lia.
Qed.

(** The non-border tiles within two tiles of the spawn tile are safe. *)
Lemma spawn_neighbourhood_safe (x y : Z) :
  0 < x < GRID_WIDTH - 1 -> 0 < y < GRID_HEIGHT - 1 ->
  Z.abs (x - fst spawn_tile) <= 2 -> Z.abs (y - snd spawn_tile) <= 2 ->
  is_safe (safe_tiles (fst spawn_tile) (snd spawn_tile)) (tile_rect x y) = true.
Proof.
  assert (E : spawn_tile = (10, 13)) by (vm_compute; reflexivity).
  rewrite E. cbn [fst snd].
  change (GRID_WIDTH - 1) with 19. change (GRID_HEIGHT - 1) with 14.
  intros Hx Hy Hdx Hdy.
  assert (Cx : x = 8 \/ x = 9 \/ x = 10 \/ x = 11 \/ x = 12) by lia.
  assert (Cy : y = 11 \/ y = 12 \/ y = 13) by lia.
  destruct Cx as [->|[->|[->|[->| ->]]]]; destruct Cy as [->|[->| ->]];
    vm_compute; reflexivity.
Qed.

Lemma generated_walls_are_tiles (G : RandomGen) (l : Level) (w : Rect) :
  In w (walls (Level_generate_map G l)) -> exists x y, w = tile_rect x y.
Proof.
  rewrite generate_map_walls. intros H. apply filter_In in H.
  destruct H as [H _]. apply in_app_or in H. destruct H as [H|H].
  - destruct (scatter_In G _ _ _ H) as (x & y & _ & Hw). eauto.
  - apply border_walls_are_tiles. exact H.
Qed.

(** C6.  For every generator and level number, the constructed level
    has a wall on every tile of the outer ring, and no wall overlaps a
    non-border tile within Chebyshev distance 2 of the player's spawn
    tile. *)
Theorem C6_border_walled_and_spawn_clear (G : RandomGen) (N : Z) :
  (forall x y,
      0 <= x < GRID_WIDTH -> 0 <= y < GRID_HEIGHT ->
      x = 0 \/ x = GRID_WIDTH - 1 \/ y = 0 \/ y = GRID_HEIGHT - 1 ->
      In (tile_rect x y) (walls (Level_init G N))) /\
  (forall x y,
      0 < x < GRID_WIDTH - 1 -> 0 < y < GRID_HEIGHT - 1 ->
      Z.abs (x - fst spawn_tile) <= 2 -> Z.abs (y - snd spawn_tile) <= 2 ->
      forall w, In w (walls (Level_init G N)) ->
                w <> tile_rect x y /\ colliderect w (tile_rect x y) = false).
Proof.
  rewrite Level_init_walls. split.
  - intros x y Hx Hy Hb. rewrite generate_map_walls. apply filter_In. split.
    + apply in_or_app. right. apply border_walls_cover; assumption.
    + rewrite border_tile_not_safe by exact Hb. reflexivity.
  - intros x y Hx Hy Hdx Hdy w Hw.
    destruct (generated_walls_are_tiles G _ _ Hw) as (a & b & ->).
    rewrite generate_map_walls in Hw. apply filter_In in Hw.
    destruct Hw as [_ Hsafe]. cbn [player] in Hsafe.
    change (py_int (py_floordiv (vx (position new_player)) (inject_Z TILE_SIZE)))
      with (fst spawn_tile) in Hsafe.
    change (py_int (py_floordiv (vy (position new_player)) (inject_Z TILE_SIZE)))
      with (snd spawn_tile) in Hsafe.
    assert (Hne : tile_rect a b <> tile_rect x y).
    { intros E. rewrite E in Hsafe.
      rewrite spawn_neighbourhood_safe in Hsafe by assumption. discriminate. }
    split; [exact Hne|].
    destruct (colliderect (tile_rect a b) (tile_rect x y)) eqn:E; [|reflexivity].
    apply tile_rects_collide in E. destruct E as [-> ->].
    exfalso. apply Hne. reflexivity.
Qed.

(** ** Determinism of level construction *)

Section Determinism.

Variable G : RandomGen.

Lemma generate_map_shape (l : Level) :
  Level_generate_map G l =
  mkLevel (number l) (walls (Level_generate_map G l)) (enemies l) (player l)
          (player_destroyed l).
Proof.
  unfold Level_generate_map. cbv zeta.
  destruct (map_rows G _ _ _) as [ws rng]. reflexivity.
Qed.

(** The generated walls depend on the level number and on the player's
    position only; whatever walls the level held before are dropped. *)
Lemma generate_map_walls_determined (l1 l2 : Level) :
  number l1 = number l2 ->
  position (player l1) = position (player l2) ->
  walls (Level_generate_map G l1) = walls (Level_generate_map G l2).
Proof.
  intros Hn Hp. rewrite !generate_map_walls, Hn, Hp. reflexivity.
Qed.

(** Placement does not read the [player_destroyed] flag. *)
Lemma place_enemy_flag (b : bool) (n : nat) :
  forall self rng,
    place_enemy G n (set_player_destroyed self b) rng =
    (set_player_destroyed (fst (place_enemy G n self rng)) b,
     snd (place_enemy G n self rng)).
Proof.
  induction n as [|n IH]; intros self rng; cbn [place_enemy]; [reflexivity|].
  destruct (draw_candidate G rng) as [[x y] rng'].
  cbn [walls set_player_destroyed].
  destruct (negb (existsb _ (walls self))); [reflexivity | apply IH].
Qed.

Lemma place_enemies_flag (b : bool) (n : nat) :
  forall self rng,
    place_enemies G n (set_player_destroyed self b) rng =
    (set_player_destroyed (fst (place_enemies G n self rng)) b,
     snd (place_enemies G n self rng)).
Proof.
  induction n as [|n IH]; intros self rng; cbn [place_enemies]; [reflexivity|].
  rewrite place_enemy_flag.
  destruct (place_enemy G 100 self rng) as [self' rng']. cbn [fst snd].
  apply IH.
Qed.

Lemma spawn_enemies_flag (b : bool) (self : Level) :
  enemies (Level_spawn_enemies G (set_player_destroyed self b)) =
  enemies (Level_spawn_enemies G self).
Proof.
  unfold Level_spawn_enemies. cbn [number set_player_destroyed].
  rewrite place_enemies_flag. reflexivity.
Qed.

(** C2.  Two level objects under construction for the same number [N],
    whatever walls and flag they held before, receive the same walls
    from [generate_map] and then the same enemies from [spawn_enemies];
    regenerating the map of a constructed level gives its walls again.
    The walls are the draws of the generator seeded with [N] itself over
    the visited tiles, plus the border, minus the spawn neighbourhood;
    the enemies come from a second generator seeded with [N * 31 + 7],
    started afresh whatever the map generation drew. *)
Theorem C2_level_determined_by_number (N : Z)
  (stale1 stale2 : list Rect) (flag1 flag2 : bool) :
  let fresh1 := mkLevel N stale1 [] new_player flag1 in
  let fresh2 := mkLevel N stale2 [] new_player flag2 in
  walls (Level_generate_map G fresh1) = walls (Level_generate_map G fresh2) /\
  enemies (Level_spawn_enemies G (Level_generate_map G fresh1)) =
  enemies (Level_spawn_enemies G (Level_generate_map G fresh2)) /\
  walls (Level_generate_map G (Level_init G N)) = walls (Level_init G N) /\
  walls (Level_init G N) =
  filter (fun wall =>
            negb (is_safe (safe_tiles (fst spawn_tile) (snd spawn_tile)) wall))
         (fst (scatter G drawn_tiles (Random G N) []) ++ border_walls) /\
  enemies (Level_init G N) =
  enemies (fst (place_enemies G (Z.to_nat (enemy_count N))
                  (mkLevel N (walls (Level_init G N)) [] new_player false)
                  (Random G (N * 31 + 7)))).
Proof.
  cbv zeta.
  assert (Hw : forall stale flag,
             walls (Level_generate_map G (mkLevel N stale [] new_player flag)) =
             walls (Level_init G N)).
  { intros stale flag. rewrite Level_init_walls.
    apply generate_map_walls_determined; reflexivity. }
  assert (Hl : forall stale flag,
             Level_generate_map G (mkLevel N stale [] new_player flag) =
             set_player_destroyed
               (mkLevel N (walls (Level_init G N)) [] new_player false) flag).
  { intros stale flag. rewrite generate_map_shape, Hw. reflexivity. }
  split; [rewrite !Hw; reflexivity|].
  split; [rewrite !Hl, !spawn_enemies_flag; reflexivity|].
  split.
  { rewrite Level_init_walls.
    apply generate_map_walls_determined.
    - unfold Level_init.
      destruct (spawn_enemies_keeps G
                  (Level_generate_map G (mkLevel N [] [] new_player false)))
        as (Hn & _ & _).
      rewrite Hn. apply (generate_map_keeps G).
    - unfold Level_init.
      destruct (spawn_enemies_keeps G
                  (Level_generate_map G (mkLevel N [] [] new_player false)))
        as (_ & _ & Hp).
      rewrite Hp.
      destruct (generate_map_keeps G (mkLevel N [] [] new_player false))
        as (_ & Hp' & _).
      rewrite Hp'. reflexivity. }
  split.
  { rewrite Level_init_walls, generate_map_walls. reflexivity. }
  unfold Level_init at 1. rewrite (Hl [] false).
  unfold Level_spawn_enemies. reflexivity.
Qed.

End Determinism.

(** ** Which tiles receive a wall draw *)

Lemma count_rect_app (r : Rect) (l1 l2 : list Rect) :
  count_rect r (l1 ++ l2) = (count_rect r l1 + count_rect r l2)%nat.
Proof. unfold count_rect. rewrite filter_app, length_app. reflexivity. Qed.

Lemma count_rect_absent (r : Rect) (l : list Rect) :
  (forall w, In w l -> w <> r) -> count_rect r l = O.
Proof.
  unfold count_rect. induction l as [|w l IH]; intros H; [reflexivity|].
  cbn [filter]. destruct (rect_eqb r w) eqn:E.
  - apply rect_eqb_eq in E. exfalso. apply (H w); [left; reflexivity | auto].
  - apply IH. intros w' Hw'. apply H. right. exact Hw'.
Qed.

(** Filtering by a test that [r] passes keeps the copies of [r]. *)
Lemma count_rect_filter (f : Rect -> bool) (r : Rect) (l : list Rect) :
  f r = true -> count_rect r (filter f l) = count_rect r l.
Proof.
  intros Hf. unfold count_rect. induction l as [|w l IH]; [reflexivity|].
  cbn [filter]. destruct (rect_eqb r w) eqn:E.
  - apply rect_eqb_eq in E. subst w. rewrite Hf. cbn [filter].
    assert (E : rect_eqb r r = true) by (apply rect_eqb_eq; reflexivity).
    rewrite E. cbn [length]. rewrite IH. reflexivity.
  - destruct (f w); [cbn [filter]; rewrite E|]; exact IH.
Qed.

Lemma tile_rect_inj (a b x y : Z) :
  tile_rect a b = tile_rect x y -> a = x /\ b = y.
Proof.
  unfold tile_rect, TILE_SIZE. intros H. injection H as H1 H2. lia.
Qed.

(** The map loops make one draw per visited tile: 260 draws. *)
Lemma map_rows_draws (G : RandomGen) (rng : rng_state G) (ws : list Rect) :
  snd (map_rows G (py_range 1 (GRID_HEIGHT - 1)) rng ws) = skip_draws G 260 rng.
Proof.
  assert (Hlen : length drawn_tiles = 260%nat) by (vm_compute; reflexivity).
  rewrite map_rows_is_scatter. fold drawn_tiles.
  rewrite scatter_draws, Hlen. reflexivity.
Qed.

(** The first draw belongs to tile (0, 1) on the left border column and
    shows in the result: the walls hold that tile's rectangle twice when
    the draw is below 0.12 (once from the draw, once from the border),
    and once otherwise. *)
Lemma first_draw_decides_border_tile (G : RandomGen) (l : Level) :
  count_rect (tile_rect 0 1) (walls (Level_generate_map G l)) =
  if Qlt_le_dec (fst (rng_random G (Random G (number l)))) (12 # 100)
  then 2%nat else 1%nat.
Proof.
  rewrite generate_map_walls.
  rewrite count_rect_filter
    by (rewrite border_tile_not_safe by (left; reflexivity); reflexivity).
  rewrite count_rect_app.
  assert (Hb : count_rect (tile_rect 0 1) border_walls = 1%nat)
    by (vm_compute; reflexivity).
  rewrite Hb.
  assert (Htiles : drawn_tiles = (0, 1) :: tl drawn_tiles)
    by (vm_compute; reflexivity).
  rewrite Htiles. cbn [scatter].
  destruct (rng_random G (Random G (number l))) as [r rng']. cbn [fst].
  rewrite scatter_acc, count_rect_app.
  assert (Hrest : count_rect (tile_rect 0 1)
                    (fst (scatter G (tl drawn_tiles) rng' [])) = O).
  { apply count_rect_absent. intros w Hw E. subst w.
    destruct (scatter_In G _ _ _ Hw) as (x & y & Hin & Hxy).
    apply tile_rect_inj in Hxy. destruct Hxy as [<- <-].
    assert (Hno : existsb (tile_eqb (0, 1)) (tl drawn_tiles) = false)
      by (vm_compute; reflexivity).
    assert (Hyes : existsb (tile_eqb (0, 1)) (tl drawn_tiles) = true).
    { apply existsb_exists. exists (0, 1). split; [exact Hin | reflexivity]. }
    congruence. }
  rewrite Hrest.
  destruct (Qlt_le_dec r (12 # 100)); reflexivity.
Qed.

(** C3 on the code.  The wall draws of [generate_map] visit 260 tiles,
    every column of the 13 interior rows, of which only 234 are interior
    tiles; the first draw belongs to tile (0, 1), on the left border
    column, and decides whether that border tile is listed twice.  With
    Python's generator this happens at level 14, whose first draw is
    below 0.12: the walls of [Level(14)] hold [Rect(0, 48, 48, 48)]
    twice. *)
Theorem C3_wall_draws_cover_border_columns :
  nth_error drawn_tiles 0 = Some (0, 1) /\
  length drawn_tiles = 260%nat /\
  (GRID_WIDTH - 2) * (GRID_HEIGHT - 2) = 234 /\
  (forall (G : RandomGen) (rng : rng_state G) (ws : list Rect),
      snd (map_rows G (py_range 1 (GRID_HEIGHT - 1)) rng ws)
      = skip_draws G 260 rng) /\
  (forall (G : RandomGen) (l : Level),
      count_rect (tile_rect 0 1) (walls (Level_generate_map G l)) =
      if Qlt_le_dec (fst (rng_random G (Random G (number l)))) (12 # 100)
      then 2%nat else 1%nat) /\
  count_rect (mkRect 0 48 48 48) (walls (Level_init Mt.gen 14)) = 2%nat.
Proof.
  split; [vm_compute; reflexivity|].
  split; [vm_compute; reflexivity|].
  split; [vm_compute; reflexivity|].
  split; [exact map_rows_draws|].
  split; [exact first_draw_decides_border_tile|].
  rewrite Level_init_walls.
  change (mkRect 0 48 48 48) with (tile_rect 0 1).
  rewrite first_draw_decides_border_tile. cbn [number].
  destruct (Qlt_le_dec (fst (rng_random Mt.gen (Random Mt.gen 14))) (12 # 100))
    as [_|Hge]; [reflexivity|].
  exfalso. revert Hge. vm_compute. intros H. apply H. reflexivity.
Qed.

(** ** Enemy placement *)



Lemma py_int_integer (q : Q) (z : Z) :
  (q == inject_Z z)%Q -> 0 <= z -> py_int q = z.
Proof.
  intros E Hz. rewrite py_int_nonneg.
  - rewrite E. apply Qfloor_Z.
  - rewrite E. unfold Qle. cbn. lia.
Qed.

Lemma candidate_rect_tile (x y : Z) :
  0 <= x -> 0 <= y ->
  candidate_rect (candidate_position x y) = tile_rect x y.
Proof.
  intros Hx Hy. unfold candidate_rect, candidate_position, tile_rect.
  cbn [vx vy]. unfold TILE_SIZE.
  rewrite (py_int_integer _ (x * 48)), (py_int_integer _ (y * 48)); try lia.
  - reflexivity.
  - change (inject_Z 48) with 48%Q. match goal with |- context [inject_Z (?v * 48)] =>
      generalize (inject_Z (v * 48)) end. intros; field.
  - change (inject_Z 48) with 48%Q. match goal with |- context [inject_Z (?v * 48)] =>
      generalize (inject_Z (v * 48)) end. intros; field.
Qed.

Section Placement.

Variable G : RandomGen.

Lemma draw_candidate_range (rng : rng_state G) :
  1 <= fst (fst (draw_candidate G rng)) <= GRID_WIDTH - 2 /\
  1 <= snd (fst (draw_candidate G rng)) <= GRID_HEIGHT / 2.
Proof.
  unfold draw_candidate.
  pose proof (rng_randint_range G 1 (GRID_WIDTH - 2) rng) as Hx.
  destruct (rng_randint G 1 (GRID_WIDTH - 2) rng) as [x rng1].
  pose proof (rng_randint_range G 1 (GRID_HEIGHT / 2) rng1) as Hy.
  destruct (rng_randint G 1 (GRID_HEIGHT / 2) rng1) as [y rng2].
  cbn [fst snd] in *.
  assert (1 <= GRID_WIDTH - 2) by (vm_compute; discriminate).
  assert (1 <= GRID_HEIGHT / 2) by (vm_compute; discriminate).
  split; [apply Hx | apply Hy]; assumption.
Qed.

(** Every candidate lies on rows 1 to 7: its centre is in the upper half
    of the arena. *)
Lemma candidate_in_upper_half (j : nat) (rng : rng_state G) :
  1 <= fst (nth_tile G j rng) <= GRID_WIDTH - 2 /\
  1 <= snd (nth_tile G j rng) <= GRID_HEIGHT / 2 /\
  (0 <= vy (nth_candidate G j rng) /\
   vy (nth_candidate G j rng) <= inject_Z SCREEN_HEIGHT / 2)%Q.
Proof.
  unfold nth_candidate, nth_tile.
  destruct (draw_candidate_range (after_attempts G j rng)) as [Hx Hy].
  split; [exact Hx|]. split; [exact Hy|].
  set (y := snd (fst (draw_candidate G (after_attempts G j rng)))) in *.
  change (GRID_HEIGHT / 2) with 7 in Hy.
  unfold candidate_position. cbn [vy]. unfold TILE_SIZE, SCREEN_HEIGHT.
  unfold Qle, Qplus, Qdiv, Qmult, Qinv, inject_Z. cbn [Qnum Qden].
  change (Z.pos (1 * 2)) with 2. change (Z.pos (1 * (1 * 2))) with 2. lia.
Qed.

Lemma nth_candidate_shift (j : nat) (rng : rng_state G) :
  nth_candidate G (S j) rng = nth_candidate G j (snd (draw_candidate G rng)).
Proof. reflexivity. Qed.

(** The attempts of one slot: the loop stops at the first candidate that
    overlaps no wall and appends an enemy there, or runs out after [n]
    overlapping candidates and appends nothing. *)
Lemma place_enemy_spec (n : nat) :
  forall self rng,
    exists k,
      (k <= n)%nat /\
      snd (place_enemy G n self rng) = after_attempts G k rng /\
      ((k = n /\
        enemies (fst (place_enemy G n self rng)) = enemies self /\
        forall j, (j < n)%nat ->
                  overlaps_wall (walls self) (nth_candidate G j rng) = true)
       \/
       (exists j,
           k = S j /\
           (forall i, (i < j)%nat ->
                      overlaps_wall (walls self) (nth_candidate G i rng) = true) /\
           overlaps_wall (walls self) (nth_candidate G j rng) = false /\
           enemies (fst (place_enemy G n self rng)) =
           enemies self ++
             [new_enemy (fresh_ident (player self :: enemies self))
                        (nth_candidate G j rng)])).
Proof.
  induction n as [|n IH]; intros self rng.
  - exists O. split; [lia|]. split; [reflexivity|].
    left. split; [reflexivity|]. split; [reflexivity|]. intros j Hj. lia.
  - cbn [place_enemy].
    assert (H0 : nth_candidate G 0 rng =
                 candidate_position (fst (fst (draw_candidate G rng)))
                                    (snd (fst (draw_candidate G rng))))
      by reflexivity.
    destruct (draw_candidate G rng) as [[x y] rng'] eqn:Ed.
    cbn [fst snd] in H0.
    fold (overlaps_wall (walls self) (candidate_position x y)).
    destruct (overlaps_wall (walls self) (candidate_position x y)) eqn:Eo;
      cbn [negb].
    + destruct (IH self rng') as (k & Hk & Hrng & Hcase).
      assert (Hshift : forall j, nth_candidate G (S j) rng = nth_candidate G j rng').
      { intros j. rewrite nth_candidate_shift, Ed. reflexivity. }
      exists (S k). split; [lia|].
      split; [cbn [after_attempts]; rewrite Ed; exact Hrng|].
      destruct Hcase as [(Hkn & Hen & Hall)|(j & Hkj & Hbefore & Hj & Hen)].
      * left. split; [lia|]. split; [exact Hen|].
        intros [|j] Hj; [rewrite H0; exact Eo|].
        rewrite Hshift. apply Hall. lia.
      * right. exists (S j). split; [lia|].
        split.
        { intros [|i] Hi; [rewrite H0; exact Eo|].
          rewrite Hshift. apply Hbefore. lia. }
        rewrite Hshift. split; [exact Hj | exact Hen].
    + exists 1%nat. split; [lia|].
      split; [cbn [after_attempts snd]; rewrite Ed; reflexivity|].
      right. exists O. split; [reflexivity|].
      split; [intros i Hi; lia|].
      rewrite H0. split; [exact Eo | reflexivity].
Qed.

(** Every enemy of the list is a live tank of the default size, if the
    enemies present before are. *)
Lemma placed_enemies_fresh (n : nat) :
  forall self rng,
    Forall (fun e => size e = (36, 36) /\ alive e = true) (enemies self) ->
    Forall (fun e => size e = (36, 36) /\ alive e = true)
           (enemies (fst (place_enemies G n self rng))).
Proof.
  induction n as [|n IH]; intros self rng H; cbn [place_enemies]; [exact H|].
  destruct (place_enemy_spec 100 self rng)
    as (k & _ & _ & [(_ & He & _)|(j & _ & _ & _ & He)]);
    destruct (place_enemy G 100 self rng) as [self' rng']; cbn [fst] in *;
    apply IH; rewrite He; [exact H|].
  apply Forall_app. split; [exact H|]. constructor; [|constructor].
  split; reflexivity.
Qed.

Lemma place_enemy_length (n : nat) (self : Level) (rng : rng_state G) :
  (length (enemies (fst (place_enemy G n self rng)))
   <= S (length (enemies self)))%nat.
Proof.
  destruct (place_enemy_spec n self rng)
    as (k & _ & _ & [(_ & He & _)|(j & _ & _ & _ & He)]); rewrite He.
  - lia.
  - rewrite length_app. cbn [length]. lia.
Qed.

Lemma place_enemies_length (n : nat) :
  forall self rng,
    (length (enemies (fst (place_enemies G n self rng)))
     <= length (enemies self) + n)%nat.
Proof.
  induction n as [|n IH]; intros self rng; cbn [place_enemies].
  - cbn [fst]. lia.
  - pose proof (place_enemy_length 100 self rng) as H1.
    destruct (place_enemy G 100 self rng) as [self' rng']. cbn [fst] in H1.
    pose proof (IH self' rng') as H2. lia.
Qed.








End Placement.



(** C10.  The attempt's verdict depends on the walls alone: for any
    level, whatever enemies it already holds, the first candidate is
    accepted (an enemy is appended at it) exactly when its 48 x 48
    rectangle overlaps no wall.  No test against the enemies placed
    before exists, so two enemies can share a position: with Python's
    generator, level 7 has its second and ninth enemies at the same
    place (360, 216). *)
Theorem C10_candidates_tested_against_walls_only :
  (forall (G : RandomGen) (self : Level) (rng : rng_state G)
          (placed : list Tank),
      let p := nth_candidate G 0 rng in
      let self' := fst (place_enemy G 1 (set_enemies self placed) rng) in
      (overlaps_wall (walls self) p = false <->
       enemies self' =
       placed ++ [new_enemy (fresh_ident (player self :: placed)) p]) /\
      (overlaps_wall (walls self) p = true <-> enemies self' = placed) /\
      (overlaps_wall (walls self) p = false <->
       forall wall, In wall (walls self) ->
                    colliderect (candidate_rect p) wall = false)) /\
  (exists i j e1 e2,
      i <> j /\
      nth_error (enemies (Level_init Mt.gen 7)) i = Some e1 /\
      nth_error (enemies (Level_init Mt.gen 7)) j = Some e2 /\
      position e1 = position e2 /\
      Tank_rect e1 = Some (mkRect 342 198 36 36) /\
      Tank_rect e2 = Some (mkRect 342 198 36 36)).
Proof.
  split.
  - intros G self rng placed p self'.
    assert (Hgrow : forall e, placed ++ [e] <> placed).
    { intros e E. apply (f_equal (@length Tank)) in E.
      rewrite length_app in E. cbn [length] in E. lia. }
    assert (Hself' :
              self' = if overlaps_wall (walls self) p
                      then set_enemies self placed
                      else set_enemies (set_enemies self placed)
                             (placed ++
                              [new_enemy (fresh_ident (player self :: placed)) p])).
    { subst self' p. cbn [place_enemy]. unfold nth_candidate, nth_tile.
      cbn [after_attempts].
      destruct (draw_candidate G rng) as [[x y] rng']. cbn [fst snd].
      cbn [walls set_enemies player enemies]. unfold overlaps_wall.
      destruct (existsb _ (walls self)); reflexivity. }
    rewrite Hself'.
    split; [|split].
    + destruct (overlaps_wall (walls self) p); cbn [enemies set_enemies];
        split; intros H; try reflexivity; try discriminate.
      exfalso. symmetry in H. exact (Hgrow _ H).
    + destruct (overlaps_wall (walls self) p); cbn [enemies set_enemies];
        split; intros H; try reflexivity; try discriminate.
      exfalso. exact (Hgrow _ H).
    + unfold overlaps_wall. split.
      * intros H wall Hin.
        destruct (colliderect (candidate_rect p) wall) eqn:E; [|reflexivity].
        assert (Ht : existsb (fun w => colliderect (candidate_rect p) w)
                             (walls self) = true).
        { apply existsb_exists. exists wall. split; assumption. }
        congruence.
      * intros H.
        destruct (existsb (fun w => colliderect (candidate_rect p) w)
                          (walls self)) eqn:E; [|reflexivity].
        apply existsb_exists in E. destruct E as (wall & Hin & Hc).
        rewrite (H wall Hin) in Hc. discriminate.
  - assert (E : map position (enemies (Level_init Mt.gen 7)) =
                map (fun t => candidate_position (fst t) (snd t))
                    [(3, 7); (7, 4); (3, 5); (14, 6); (17, 2); (1, 3);
                     (9, 5); (14, 3); (7, 4)])
      by (vm_compute; reflexivity).
    assert (A : Forall (fun e => size e = (36, 36) /\ alive e = true)
                       (enemies (Level_init Mt.gen 7))).
    { unfold Level_init, Level_spawn_enemies.
      apply placed_enemies_fresh.
      destruct (generate_map_keeps Mt.gen (mkLevel 7 [] [] new_player false))
        as (_ & _ & He). rewrite He. constructor. }
    destruct (enemies (Level_init Mt.gen 7))
      as [|t0 [|t1 [|t2 [|t3 [|t4 [|t5 [|t6 [|t7 [|t8 rest]]]]]]]]];
      try discriminate E.
    injection E as E0 E1 E2 E3 E4 E5 E6 E7 E8 _.
    exists 1%nat, 8%nat, t1, t8.
    rewrite Forall_forall in A.
    assert (A1 : size t1 = (36, 36) /\ alive t1 = true)
      by (apply A; right; left; reflexivity).
    assert (A8 : size t8 = (36, 36) /\ alive t8 = true)
      by (apply A; do 8 right; left; reflexivity).
    split; [discriminate|].
    split; [reflexivity|]. split; [reflexivity|].
    split; [rewrite E1, E8; reflexivity|].
    unfold Tank_rect. destruct A1 as [-> ->], A8 as [-> ->].
    rewrite E1, E8. split; vm_compute; reflexivity.
Qed.

(** ** Struck vehicles *)

Section StruckVehicles.

Variable M : MathLib.

(** A dead tank is left out of movement and AI by [Tank.update]; only
    its shells are advanced and pruned. *)
Lemma dead_tank_update (dt : Q) (keys : Keys) (level : Level) (t : Tank) :
  alive t = false ->
  Tank_update M dt keys level t =
  set_shells t (filter shell_alive
                       (map (Shell_update dt (walls level)) (shells t))).
Proof. intros H. unfold Tank_update. rewrite H. reflexivity. Qed.

(** A dead tank has no rectangle, so no shell can strike it again. *)
Lemma dead_tank_no_rect (t : Tank) : alive t = false -> Tank_rect t = None.
Proof.
  intros H. unfold Tank_rect. destruct (size t) as [w h]. rewrite H.
  rewrite orb_true_r. reflexivity.
Qed.

(** At the end of a frame only living enemies remain in the level. *)
Lemma update_keeps_living_enemies (dt : Q) (keys : Keys) (l : Level) (e : Tank) :
  In e (enemies (fst (Level_update M dt keys l))) -> alive e = true.
Proof.
  unfold Level_update. cbv zeta. cbn [fst enemies set_player_destroyed set_enemies].
  intros H. apply filter_In in H. apply H.
Qed.

End StruckVehicles.

(** C1 on the code.  In the duel frame the player's shell strikes the
    near enemy while that enemy's own shell is in flight: after the
    collision pass the enemy is dead and its shell alive.  [Level.update]
    then drops the dead enemy from [self.enemies], and with it the shell:
    the level that the next frame updates holds no shell of that enemy,
    although the level goes on (an enemy remains, the player lives, and
    the game loop keeps this level). *)
Theorem C1_struck_enemy_takes_its_shells_along :
  let dt := (1 # 60)%Q in
  let mid := Level__handle_shell_collisions
               (Level_update_tanks Approx.math dt no_keys duel_level) in
  let next := fst (Level_update Approx.math dt no_keys duel_level) in
  let next2 := fst (Level_update Approx.math dt no_keys next) in
  (exists e s,
      nth_error (enemies mid) 0 = Some e /\
      ident e = ident near_enemy /\
      alive e = false /\
      shells e = [s] /\
      shell_alive s = true /\ shell_owner s = ident near_enemy) /\
  map ident (enemies next) = [ident far_enemy] /\
  alive (player next) = true /\
  snd (Level_update Approx.math dt no_keys duel_level) = false /\
  Game__update Approx.math Mt.gen dt no_keys (mkGame 1 duel_level true) =
  mkGame 1 next true /\
  forallb (fun s => negb (Nat.eqb (shell_owner s) (ident near_enemy)))
          (level_shells next) = true /\
  forallb (fun s => negb (Nat.eqb (shell_owner s) (ident near_enemy)))
          (level_shells next2) = true.
Proof.
  cbv zeta. split.
  - eexists. eexists.
    split; [vm_compute; reflexivity|].
    repeat split; reflexivity.
  - repeat split; vm_compute; reflexivity.
Qed.

(** ** Python's generator: reference values

    The values CPython 3 returns: the first words of the state after
    [random.Random(1)], its first two [random()] results (as exact
    fractions), and six [randint(1, 18)] results of [random.Random(38)]. *)

Example Mt_reference_seed_1 :
  firstn 5 (Mt.mt (Mt.seed 1)) =
    [2147483648; 163610392; 3414454684; 213706556; 4107842212] /\
  (fst (Mt.random (Mt.seed 1)) == 1210245519433057 # 9007199254740992)%Q /\
  (fst (Mt.random (snd (Mt.random (Mt.seed 1))))
   == 954125565472927 # 1125899906842624)%Q.
Proof. vm_compute. repeat split; reflexivity. Qed.

Example Mt_reference_seed_38 :
  let s0 := Mt.seed 38 in
  let '(r1, s1) := Mt.randint 1 18 s0 in
  let '(r2, s2) := Mt.randint 1 18 s1 in
  let '(r3, s3) := Mt.randint 1 18 s2 in
  let '(r4, s4) := Mt.randint 1 18 s3 in
  let '(r5, s5) := Mt.randint 1 18 s4 in
  let '(r6, _) := Mt.randint 1 18 s5 in
  [r1; r2; r3; r4; r5; r6] = [14; 14; 4; 3; 12; 15].
Proof. vm_compute. reflexivity. Qed.

(** * Further properties of the code *)

(** ** [clamp] *)

(** X1.  [clamp] lands in [lo, hi] when the bounds are ordered and is
    the value itself when the value already lies between them; with
    crossed bounds ([hi < lo]) it returns the lower bound, whatever the
    value. *)
Theorem X1_clamp_behaviour (value lo hi : Q) :
  (lo <= hi -> lo <= clamp value lo hi /\ clamp value lo hi <= hi)%Q /\
  (lo <= value -> value <= hi -> clamp value lo hi == value)%Q /\
  (hi < lo -> clamp value lo hi = lo)%Q.
Proof.
  split; [apply clamp_range|]. split.
  - intros Hlo Hhi. unfold clamp, py_max, py_min.
    destruct (Qlt_le_dec hi value); [lra|].
    destruct (Qlt_le_dec lo value); [reflexivity | lra].
  - intros Hx. unfold clamp, py_max, py_min.
    destruct (Qlt_le_dec hi value); destruct (Qlt_le_dec lo _);
      try reflexivity; lra.
Qed.

(** ** [Tank.fire] *)

Section FireFacts.

Variable M : MathLib.

Lemma fire_effect (t : Tank) :
  alive t = true -> (reload_time t <= 0)%Q ->
  Tank_fire M t =
  set_reload_time
    (set_shells t
       (shells t ++
        [mkShell (vadd (position t)
                       (vscale (vec_from_angle M (angle t))
                               (inject_Z (fst (size t) / 2))))
                 (vscale (vec_from_angle M (angle t)) SHELL_SPEED)
                 (ident t) 6 true]))
    (shell_cooldown t).
Proof.
  intros Ha Hr. unfold Tank_fire. rewrite Ha.
  destruct (Qlt_le_dec 0 (reload_time t)) as [Hlt|_]; [lra | reflexivity].
Qed.

Lemma fire_blocked (t : Tank) :
  (0 < reload_time t)%Q -> Tank_fire M t = t.
Proof.
  intros Hr. unfold Tank_fire.
  destruct (Qlt_le_dec 0 (reload_time t)) as [_|Hle]; [reflexivity | lra].
Qed.

(** X2.  With a positive cooldown a second [fire] right after a first
    one does nothing: at most one shell is added.  When the tank is
    alive and its reload timer has run out, the shot appends exactly one
    live shell owned by the tank, at the muzzle (half the width ahead of
    the centre), flying at [SHELL_SPEED] along the heading, and the
    timer is set to the cooldown. *)
Theorem X2_fire_once_per_cooldown (t : Tank) :
  (0 < shell_cooldown t)%Q ->
  Tank_fire M (Tank_fire M t) = Tank_fire M t /\
  (length (shells (Tank_fire M t)) <= S (length (shells t)))%nat /\
  (alive t = true -> (reload_time t <= 0)%Q ->
   exists s,
     shells (Tank_fire M t) = shells t ++ [s] /\
     shell_alive s = true /\ shell_owner s = ident t /\
     shell_position s =
       vadd (position t)
            (vscale (vec_from_angle M (angle t)) (inject_Z (fst (size t) / 2))) /\
     shell_velocity s = vscale (vec_from_angle M (angle t)) SHELL_SPEED /\
     reload_time (Tank_fire M t) = shell_cooldown t).
Proof.
  intros Hcd.
  assert (Hcases : Tank_fire M t = t \/
                   (alive t = true /\ (reload_time t <= 0)%Q)).
  { unfold Tank_fire.
    destruct (Qlt_le_dec 0 (reload_time t)) as [Hlt|Hle]; [left; reflexivity|].
    destruct (alive t); [right; auto | left; reflexivity]. }
  split; [|split].
  - destruct Hcases as [E|[Ha Hr]]; [rewrite !E; reflexivity|].
    apply fire_blocked. rewrite (fire_effect t Ha Hr). exact Hcd.
  - destruct Hcases as [E|[Ha Hr]]; [rewrite E; lia|].
    rewrite (fire_effect t Ha Hr). cbn [shells set_reload_time set_shells].
    rewrite length_app. cbn [length]. lia.
  - intros Ha Hr. rewrite (fire_effect t Ha Hr).
    eexists. cbn [shells set_reload_time set_shells reload_time].
    repeat split; reflexivity.
Qed.

End FireFacts.

Lemma X2_witness_player_shot :
  Tank_fire Approx.math (Tank_fire Approx.math new_player)
  = Tank_fire Approx.math new_player /\
  (length (shells (Tank_fire Approx.math new_player))
   <= S (length (shells new_player)))%nat.
Proof.
  assert (H : (0 < shell_cooldown new_player)%Q) by reflexivity.
  pose proof (X2_fire_once_per_cooldown Approx.math new_player H) as [H1 [H2 _]].
  exact (conj H1 H2).
Defined.

(** ** Fire rate *)


Section ReloadPace.

Variable M : MathLib.




End ReloadPace.


(** ** Player control *)


(** ** More on wall-collision resolution *)

Lemma wall_step_clear (self : Tank) (rect wall : Rect) :
  Tank_rect self = Some rect -> colliderect rect wall = false ->
  wall_step self wall = self.
Proof. intros Hr Hc. unfold wall_step. rewrite Hr, Hc. reflexivity. Qed.

Lemma handle_wall_collisions_clear (self : Tank) (walls : list Rect) (rect : Rect) :
  Tank_rect self = Some rect ->
  (forall wall, In wall walls -> colliderect rect wall = false) ->
  Tank__handle_wall_collisions self walls = self.
Proof.
  intros Hr Hclear. rewrite handle_wall_collisions_is_fold.
  induction walls as [|w ws IH]; [reflexivity|].
  cbn [fold_left]. rewrite (wall_step_clear self rect w Hr).
  - apply IH. intros wall Hin. apply Hclear. right. exact Hin.
  - apply Hclear. left. reflexivity.
Qed.

(** X5.  Wall resolution changes nothing but the position.  It changes
    nothing at all for a tank without a rectangle (dead or of zero size)
    and for a tank whose rectangle overlaps none of the walls. *)
Theorem X5_clear_tank_not_moved (self : Tank) (walls : list Rect) :
  (exists p, Tank__handle_wall_collisions self walls = set_position self p) /\
  (Tank_rect self = None -> Tank__handle_wall_collisions self walls = self) /\
  (forall rect,
      Tank_rect self = Some rect ->
      (forall wall, In wall walls -> colliderect rect wall = false) ->
      Tank__handle_wall_collisions self walls = self).
Proof.
  split; [apply handle_wall_collisions_moves_only|]. split.
  - intros H. unfold Tank__handle_wall_collisions. rewrite H. reflexivity.
  - intros rect. apply handle_wall_collisions_clear.
Qed.

(** The rectangle of a tank that has one. *)
Lemma Tank_rect_some (self : Tank) (rect : Rect) :
  Tank_rect self = Some rect ->
  alive self = true /\ fst (size self) <> 0 /\ snd (size self) <> 0 /\
  rect = mkRect (py_int (vx (position self) - inject_Z (fst (size self)) / 2))
                (py_int (vy (position self) - inject_Z (snd (size self)) / 2))
                (fst (size self)) (snd (size self)).
Proof.
  unfold Tank_rect. destruct (size self) as [w h]. cbn [fst snd].
  destruct (w =? 0) eqn:Ew; [discriminate|].
  destruct (h =? 0) eqn:Eh; [discriminate|].
  destruct (alive self); [|discriminate].
  cbn [orb negb]. intros H. injection H as <-.
  apply Z.eqb_neq in Ew. apply Z.eqb_neq in Eh. auto.
Qed.

Lemma Tank_rect_moved (self : Tank) (rect : Rect) (p : Vector2) :
  Tank_rect self = Some rect ->
  Tank_rect (set_position self p) =
  Some (mkRect (py_int (vx p - inject_Z (rw rect) / 2))
               (py_int (vy p - inject_Z (rh rect) / 2))
               (rw rect) (rh rect)).
Proof.
  intros H. destruct (Tank_rect_some self rect H) as (Ha & Hw & Hh & ->).
  unfold Tank_rect. cbn [size set_position alive position rw rh].
  destruct (size self) as [w h]. cbn [fst snd] in *.
  apply Z.eqb_neq in Hw. apply Z.eqb_neq in Hh. rewrite Hw, Hh, Ha.
  reflexivity.
Qed.

(** The four corrections of [resolve_wall], by cases. *)
Lemma resolve_wall_cases (self : Tank) (rect wall : Rect) :
  let p := position self in
  let dx_left := right wall - left rect in
  let dx_right := right rect - left wall in
  let dy_top := bottom wall - top rect in
  let dy_bottom := bottom rect - top wall in
  let m := py_min4 dx_left dx_right dy_top dy_bottom in
  (m = dx_left /\
   resolve_wall self rect wall =
   set_position self (mkVector2 (vx p + inject_Z dx_left) (vy p))) \/
  (m = dx_right /\
   resolve_wall self rect wall =
   set_position self (mkVector2 (vx p - inject_Z dx_right) (vy p))) \/
  (m = dy_top /\
   resolve_wall self rect wall =
   set_position self (mkVector2 (vx p) (vy p + inject_Z dy_top))) \/
  (m = dy_bottom /\
   resolve_wall self rect wall =
   set_position self (mkVector2 (vx p) (vy p - inject_Z dy_bottom))).
Proof.
  cbv zeta. unfold resolve_wall.
  destruct (_ =? right wall - left rect) eqn:E1;
    [left; apply Z.eqb_eq in E1; auto|].
  destruct (_ =? right rect - left wall) eqn:E2;
    [right; left; apply Z.eqb_eq in E2; auto|].
  destruct (_ =? bottom wall - top rect) eqn:E3;
    [right; right; left; apply Z.eqb_eq in E3; auto|].
  right; right; right. split; [|reflexivity].
  apply Z.eqb_neq in E1. apply Z.eqb_neq in E2. apply Z.eqb_neq in E3.
  unfold py_min4 in *. lia.
Qed.

Lemma colliderect_positive (a b : Rect) :
  0 < rw a -> 0 < rh a -> 0 < rw b -> 0 < rh b ->
  colliderect a b = true <->
  rx a < rx b + rw b /\ ry a < ry b + rh b /\
  rx b < rx a + rw a /\ ry b < ry a + rh a.
Proof.
  intros Ha Ha' Hb Hb'. unfold colliderect.
  assert (E : (rw a =? 0) || (rh a =? 0) || (rw b =? 0) || (rh b =? 0) = false).
  { repeat (apply orb_false_iff; split); apply Z.eqb_neq; lia. }
  rewrite E. rewrite !andb_true_iff, !Z.ltb_lt, !Z.gtb_lt. lia.
Qed.

Lemma shift_plus (a h k : Q) : (a + k - h == a - h + k)%Q.
Proof. ring. Qed.

Lemma shift_minus (a h : Q) (k : Z) :
  (a - inject_Z k - h == a - h + inject_Z (- k))%Q.
Proof. rewrite inject_Z_opp. ring. Qed.

(** X6.  For a tank and a wall of positive sizes, with the tank's
    top-left corner [position - size / 2] not negative before and after
    the correction, resolving against a single overlapping wall moves
    the tank along one axis and leaves its rectangle clear of that
    wall. *)
Theorem X6_single_wall_resolution_clears (self : Tank) (rect wall : Rect) :
  Tank_rect self = Some rect ->
  colliderect rect wall = true ->
  0 < rw rect -> 0 < rh rect -> 0 < rw wall -> 0 < rh wall ->
  let self' := Tank__handle_wall_collisions self [wall] in
  (0 <= vx (position self) - inject_Z (rw rect) / 2)%Q ->
  (0 <= vy (position self) - inject_Z (rh rect) / 2)%Q ->
  (0 <= vx (position self') - inject_Z (rw rect) / 2)%Q ->
  (0 <= vy (position self') - inject_Z (rh rect) / 2)%Q ->
  self' = resolve_wall self rect wall /\
  (vx (position self') = vx (position self) \/
   vy (position self') = vy (position self)) /\
  exists rect',
    Tank_rect self' = Some rect' /\
    rw rect' = rw rect /\ rh rect' = rh rect /\
    colliderect rect' wall = false.
Proof.
  intros Hrect Hcol Hw Hh Hww Hwh self'.
  assert (Hself' : self' = resolve_wall self rect wall).
  { subst self'. unfold Tank__handle_wall_collisions. rewrite Hrect.
    cbn [wall_loop]. rewrite Hcol.
    destruct (Tank_rect (resolve_wall self rect wall)); reflexivity. }
  rewrite Hself'. clear Hself' self'.
  intros Hx Hy Hx' Hy'.
  split; [reflexivity|].
  destruct (Tank_rect_some self rect Hrect) as (_ & _ & _ & Erect).
  assert (Erx : rx rect = py_int (vx (position self) - inject_Z (rw rect) / 2))
    by (rewrite Erect at 1; rewrite Erect; reflexivity).
  assert (Ery : ry rect = py_int (vy (position self) - inject_Z (rh rect) / 2))
    by (rewrite Erect at 1; rewrite Erect; reflexivity).
  apply colliderect_positive in Hcol; try assumption.
  pose proof (resolve_wall_cases self rect wall) as Hcases. cbv zeta in Hcases.
  unfold right, left, bottom, top in Hcases.
  destruct Hcases as [[_ E]|[[_ E]|[[_ E]|[_ E]]]]; rewrite E in *;
    cbn [position set_position vx vy] in *;
    (split; [auto|]);
    rewrite (Tank_rect_moved self rect _ Hrect); cbn [vx vy];
    eexists; (split; [reflexivity|]); cbn [rw rh];
    (split; [reflexivity|]); (split; [reflexivity|]).
  - rewrite (py_int_shift (vx (position self) - inject_Z (rw rect) / 2)
               (vx (position self) + inject_Z (rx wall + rw wall - rx rect)
                - inject_Z (rw rect) / 2)
               (rx wall + rw wall - rx rect)); [| assumption | assumption | apply shift_plus].
    rewrite <- Erx, <- Ery.
    destruct (colliderect _ wall) eqn:Ec; [|reflexivity].
    apply colliderect_positive in Ec; cbn [rx ry rw rh] in *; lia.
  - rewrite (py_int_shift (vx (position self) - inject_Z (rw rect) / 2)
               (vx (position self) - inject_Z (rx rect + rw rect - rx wall)
                - inject_Z (rw rect) / 2)
               (- (rx rect + rw rect - rx wall)));
      [| assumption | assumption | apply shift_minus].
    rewrite <- Erx, <- Ery.
    destruct (colliderect _ wall) eqn:Ec; [|reflexivity].
    apply colliderect_positive in Ec; cbn [rx ry rw rh] in *; lia.
  - rewrite (py_int_shift (vy (position self) - inject_Z (rh rect) / 2)
               (vy (position self) + inject_Z (ry wall + rh wall - ry rect)
                - inject_Z (rh rect) / 2)
               (ry wall + rh wall - ry rect)); [| assumption | assumption | apply shift_plus].
    rewrite <- Erx, <- Ery.
    destruct (colliderect _ wall) eqn:Ec; [|reflexivity].
    apply colliderect_positive in Ec; cbn [rx ry rw rh] in *; lia.
  - rewrite (py_int_shift (vy (position self) - inject_Z (rh rect) / 2)
               (vy (position self) - inject_Z (ry rect + rh rect - ry wall)
                - inject_Z (rh rect) / 2)
               (- (ry rect + rh rect - ry wall)));
      [| assumption | assumption | apply shift_minus].
    rewrite <- Erx, <- Ery.
    destruct (colliderect _ wall) eqn:Ec; [|reflexivity].
    apply colliderect_positive in Ec; cbn [rx ry rw rh] in *; lia.
Qed.

Lemma X6_witness_pushed_out_of_tile :
  let self' := Tank__handle_wall_collisions tank_in_right_tile
                 [mkRect 96 48 48 48] in
  self' = resolve_wall tank_in_right_tile (mkRect 98 50 36 36)
                       (mkRect 96 48 48 48) /\
  (vx (position self') = vx (position tank_in_right_tile) \/
   vy (position self') = vy (position tank_in_right_tile)) /\
  exists rect',
    Tank_rect self' = Some rect' /\
    rw rect' = 36 /\ rh rect' = 36 /\
    colliderect rect' (mkRect 96 48 48 48) = false.
Proof.
  cbv zeta.
  apply (X6_single_wall_resolution_clears tank_in_right_tile
           (mkRect 98 50 36 36) (mkRect 96 48 48 48));
    try reflexivity; vm_compute; discriminate.
Defined.

(** ** [Shell.update] and [Tank.update] *)

(** A shell that is alive after its update was alive before, and its
    new position is in the arena and inside no wall. *)
Lemma Shell_update_survivor (dt : Q) (walls : list Rect) (s : Shell) :
  shell_alive (Shell_update dt walls s) = true ->
  shell_alive s = true /\
  shell_position (Shell_update dt walls s) =
    vadd (shell_position s) (vscale (shell_velocity s) dt) /\
  in_arena (shell_position (Shell_update dt walls s)) /\
  forall wall, In wall walls ->
    collidepoint wall (vx (shell_position (Shell_update dt walls s)))
                      (vy (shell_position (Shell_update dt walls s))) = false.
Proof.
  unfold Shell_update. destruct (shell_alive s) eqn:Ea; cbn [negb].
  - cbv zeta. cbn [shell_alive shell_position].
    set (p := vadd (shell_position s) (vscale (shell_velocity s) dt)).
    destruct (existsb (fun wall => collidepoint wall (vx p) (vy p)) walls) eqn:Eh.
    + destruct (negb _); discriminate.
    + destruct (Qle_bool 0 (vx p) && Qle_bool (vx p) (inject_Z SCREEN_WIDTH) &&
                Qle_bool 0 (vy p) && Qle_bool (vy p) (inject_Z SCREEN_HEIGHT))
        eqn:Ei; cbn [negb]; [|discriminate].
      intros _. split; [reflexivity|]. split; [reflexivity|]. split.
      * repeat (apply andb_true_iff in Ei; destruct Ei as [Ei ?]).
        unfold in_arena. rewrite <- !Qle_bool_iff. auto.
      * intros wall Hin.
        destruct (collidepoint wall (vx p) (vy p)) eqn:Ec; [|reflexivity].
        assert (existsb (fun wall => collidepoint wall (vx p) (vy p)) walls = true)
          by (apply existsb_exists; exists wall; auto).
        congruence.
  - rewrite Ea. discriminate.
Qed.

Lemma same_build_refl (t : Tank) : same_build t t.
Proof. unfold same_build. repeat split; reflexivity. Qed.

Lemma same_build_trans (a b c : Tank) :
  same_build a b -> same_build b c -> same_build a c.
Proof.
  unfold same_build. intros (H1 & H2 & H3 & H4 & H5 & H6 & H7)
                            (G1 & G2 & G3 & G4 & G5 & G6 & G7).
  repeat split; congruence.
Qed.

Section UpdateFacts.

Variable M : MathLib.

Lemma fire_build (t : Tank) :
  same_build t (Tank_fire M t) /\ alive (Tank_fire M t) = alive t /\
  position (Tank_fire M t) = position t.
Proof.
  unfold Tank_fire, same_build.
  destruct ((if Qlt_le_dec 0 (reload_time t) then true else false)
            || negb (alive t)); repeat split; reflexivity.
Qed.

Lemma update_player_build (dt : Q) (keys : Keys) (level : Level) (t : Tank) :
  same_build t (Tank__update_player M dt keys level t) /\
  alive (Tank__update_player M dt keys level t) = alive t /\
  shells (Tank__update_player M dt keys level t) = shells t.
Proof.
  unfold Tank__update_player, same_build.
  destruct (K_a keys || K_LEFT keys), (K_d keys || K_RIGHT keys);
    match goal with |- context [Qlt_le_dec 0 ?ls] =>
      destruct (Qlt_le_dec 0 ls) end;
    repeat split; reflexivity.
Qed.

Lemma update_enemy_build (dt : Q) (level : Level) (t : Tank) :
  same_build t (Tank__update_enemy M dt level t) /\
  alive (Tank__update_enemy M dt level t) = alive t.
Proof.
  unfold Tank__update_enemy.
  set (direction := vsub (position (player level)) (position t)).
  set (self1 := if Qlt_le_dec 1 (length_squared direction) then _ else t).
  set (self2 := if Qlt_le_dec _ (vlength M direction) then _ else self1).
  assert (H1 : same_build t self1 /\ alive self1 = alive t).
  { subst self1. destruct (Qlt_le_dec 1 (length_squared direction));
      unfold same_build; repeat split; reflexivity. }
  assert (H2 : same_build self1 self2 /\ alive self2 = alive self1).
  { subst self2. destruct (Qlt_le_dec _ (vlength M direction));
      unfold same_build; repeat split; reflexivity. }
  destruct H1 as [B1 A1], H2 as [B2 A2].
  destruct ((if Qlt_le_dec (vlength M direction) (inject_Z SCREEN_WIDTH)
             then true else false) && Qle_bool (reload_time self2) 0).
  - destruct (fire_build self2) as (B3 & A3 & _). split.
    + eapply same_build_trans; [exact B1|].
      eapply same_build_trans; [exact B2 | exact B3].
    + congruence.
  - split; [eapply same_build_trans; eassumption | congruence].
Qed.

Lemma handle_wall_collisions_build (t : Tank) (walls : list Rect) :
  same_build t (Tank__handle_wall_collisions t walls) /\
  alive (Tank__handle_wall_collisions t walls) = alive t /\
  shells (Tank__handle_wall_collisions t walls) = shells t.
Proof.
  destruct (handle_wall_collisions_moves_only t walls) as [p ->].
  unfold same_build. repeat split; reflexivity.
Qed.

Lemma Tank_update_facts
  (dt : Q) (keys : Keys) (level : Level) (self : Tank) :
  let self' := Tank_update M dt keys level self in
  Forall (fun s =>
            shell_alive s = true /\ in_arena (shell_position s) /\
            forall wall, In wall (walls level) ->
              collidepoint wall (vx (shell_position s))
                                (vy (shell_position s)) = false)
         (shells self') /\
  same_build self self' /\
  alive self' = alive self /\
  (alive self = false ->
   position self' = position self /\ angle self' = angle self /\
   reload_time self' = reload_time self).
Proof.
  cbv zeta. unfold Tank_update. cbv zeta.
  set (self1 := if alive self then _ else self).
  assert (H1 : same_build self self1 /\ alive self1 = alive self).
  { subst self1. destruct (alive self) eqn:Ea.
    - set (s0 := set_reload_time self _).
      assert (B0 : same_build self s0 /\ alive s0 = alive self)
        by (unfold same_build; repeat split; reflexivity).
      set (s1 := if is_player s0 then _ else _).
      assert (B1 : same_build s0 s1 /\ alive s1 = alive s0).
      { subst s1. destruct (is_player s0).
        - destruct (update_player_build dt keys level s0) as (B & A & _). auto.
        - apply update_enemy_build. }
      destruct (handle_wall_collisions_build s1 (walls level)) as (B2 & A2 & _).
      destruct B0 as [B0 A0], B1 as [B1 A1]. split.
      + eapply same_build_trans; [exact B0|].
        eapply same_build_trans; [exact B1 | exact B2].
      + congruence.
    - split; [apply same_build_refl | exact Ea]. }
  destruct H1 as [B1 A1].
  split; [|split; [|split]].
  - cbn [shells set_shells]. apply Forall_forall. intros s Hs.
    apply filter_In in Hs. destruct Hs as [Hin Halive].
    apply in_map_iff in Hin. destruct Hin as (s0 & <- & _).
    destruct (Shell_update_survivor dt (walls level) s0 Halive)
      as (_ & _ & Harena & Hwalls).
    auto.
  - eapply same_build_trans; [exact B1|].
    unfold same_build. repeat split; reflexivity.
  - cbn [alive set_shells]. exact A1.
  - intros Hdead. subst self1. rewrite Hdead. repeat split; reflexivity.
Qed.

(** X7.  After [Tank.update] the tank's list holds live shells only,
    each inside the arena and inside no wall.  The update never changes
    whether the tank is alive, nor its identity, colour, speeds, control
    mode, cooldown or size; a dead tank keeps its position, heading and
    reload timer as well. *)
Theorem X7_update_keeps_live_shells_only
  (dt : Q) (keys : Keys) (level : Level) (self : Tank) :
  let self' := Tank_update M dt keys level self in
  Forall (fun s =>
            shell_alive s = true /\ in_arena (shell_position s) /\
            forall wall, In wall (walls level) ->
              collidepoint wall (vx (shell_position s))
                                (vy (shell_position s)) = false)
         (shells self') /\
  same_build self self' /\
  alive self' = alive self /\
  (alive self = false ->
   position self' = position self /\ angle self' = angle self /\
   reload_time self' = reload_time self).
Proof. exact (Tank_update_facts dt keys level self). Qed.

End UpdateFacts.

(** ** The shell-collision pass *)

Lemma update_nth_length {A : Type} (f : A -> A) (l : list A) :
  forall n, length (update_nth n f l) = length l.
Proof.
  induction l as [|a l IH]; intros [|n]; cbn [update_nth length]; auto.
Qed.

Lemma Forall2_update_nth {A : Type} (R : A -> A -> Prop) (f : A -> A)
  (l0 l : list A) (n : nat) :
  Forall2 R l0 l ->
  (forall a0 a, nth_error l0 n = Some a0 -> nth_error l n = Some a ->
                R a0 a -> R a0 (f a)) ->
  Forall2 R l0 (update_nth n f l).
Proof.
  intros H. revert n. induction H as [|a0 a l0 l Ha Hl IH]; intros n Hf.
  - destruct n; constructor.
  - destruct n as [|n]; cbn [update_nth].
    + constructor; [apply Hf; auto | exact Hl].
    + constructor; [exact Ha|]. apply IH. intros b0 b Hb0 Hb. apply Hf; assumption.
Qed.

Lemma Forall2_nth_error {A : Type} (R : A -> A -> Prop) (l0 l : list A) :
  Forall2 R l0 l ->
  forall n a, nth_error l n = Some a ->
              exists a0, nth_error l0 n = Some a0 /\ R a0 a.
Proof.
  intros H. induction H as [|a0 a l0 l Ha Hl IH]; intros [|n] b Hb;
    cbn [nth_error] in *; try discriminate.
  - injection Hb as <-. eauto.
  - apply IH. exact Hb.
Qed.

(** What [find_target] returns: the first tank that is not the owner,
    has a rectangle, and holds the shell's position. *)
Lemma find_target_some (shell : Shell) (targets : list Tank) :
  forall k0 k,
    find_target shell targets k0 = Some k ->
    exists target rect,
      (k0 <= k)%nat /\
      nth_error targets (k - k0) = Some target /\
      ident target <> shell_owner shell /\
      Tank_rect target = Some rect /\
      collidepoint rect (vx (shell_position shell))
                        (vy (shell_position shell)) = true.
Proof.
  induction targets as [|t ts IH]; intros k0 k H; cbn [find_target] in H;
    [discriminate|].
  assert (Hrec : find_target shell ts (S k0) = Some k ->
                 exists target rect,
                   (k0 <= k)%nat /\
                   nth_error (t :: ts) (k - k0) = Some target /\
                   ident target <> shell_owner shell /\
                   Tank_rect target = Some rect /\
                   collidepoint rect (vx (shell_position shell))
                                     (vy (shell_position shell)) = true).
  { intros Hr. destruct (IH _ _ Hr) as (target & rect & Hk & Hn & Hrest).
    exists target, rect. split; [lia|]. split; [|exact Hrest].
    replace (k - k0)%nat with (S (k - S k0)) by lia. exact Hn. }
  destruct (Nat.eqb (ident t) (shell_owner shell)) eqn:Eo; [auto|].
  destruct (Tank_rect t) as [rect|] eqn:Er; [|auto].
  destruct (rect_bool rect &&
            collidepoint rect (vx (shell_position shell))
                              (vy (shell_position shell))) eqn:Ec; [|auto].
  injection H as <-. exists t, rect.
  apply Nat.eqb_neq in Eo. apply andb_true_iff in Ec.
  split; [lia|]. rewrite Nat.sub_diag. cbn [nth_error]. tauto.
Qed.

Lemma tank_ages_rect (t0 t : Tank) (rect : Rect) :
  tank_ages t0 t -> Tank_rect t = Some rect ->
  Tank_rect t0 = Some rect /\ ident t = ident t0.
Proof.
  intros (B & Hp & _ & _ & Ha & _) Hr.
  destruct B as (Hi & _ & _ & _ & _ & _ & Hs).
  split; [|exact Hi].
  destruct (Tank_rect_some t rect Hr) as (Halive & _).
  unfold Tank_rect in *. rewrite Hs, Hp in Hr. rewrite (Ha Halive).
  rewrite Halive in Hr. exact Hr.
Qed.

Lemma shell_ages_dead (s0 s : Shell) :
  shell_ages s0 s -> shell_ages s0 (set_shell_dead s).
Proof.
  intros (H1 & H2 & H3 & H4 & _). unfold shell_ages. cbn.
  repeat split; try assumption. discriminate.
Qed.

Lemma tank_ages_kill_shell (t0 t : Tank) (j : nat) :
  tank_ages t0 t -> tank_ages t0 (kill_shell j t).
Proof.
  intros (B & Hp & Han & Hr & Ha & Hs). unfold tank_ages, kill_shell.
  cbn [position angle reload_time alive shells set_shells].
  split; [destruct B as (?&?&?&?&?&?&?); unfold same_build; cbn; tauto|].
  repeat split; try assumption.
  apply Forall2_update_nth; [exact Hs|].
  intros a0 a _ _. apply shell_ages_dead.
Qed.

Lemma tank_ages_dead (t0 t : Tank) :
  tank_ages t0 t -> tank_ages t0 (set_alive t false).
Proof.
  intros (B & Hp & Han & Hr & Ha & Hs). unfold tank_ages.
  cbn [position angle reload_time alive shells set_alive].
  split; [destruct B as (?&?&?&?&?&?&?); unfold same_build; cbn; tauto|].
  repeat split; try assumption. discriminate.
Qed.

Lemma pass_inv_strike (tanks0 tanks : list Tank) (i j : nat) :
  pass_inv tanks0 tanks -> pass_inv tanks0 (strike tanks i j).
Proof.
  intros Hinv. unfold strike.
  destruct (nth_error tanks i) as [tank|] eqn:Ei; [|exact Hinv].
  destruct (nth_error (shells tank) j) as [shell|] eqn:Ej; [|exact Hinv].
  destruct (shell_alive shell) eqn:Ea; cbn [negb]; [|exact Hinv].
  destruct (find_target shell tanks 0) as [k|] eqn:Ef; [|exact Hinv].
  destruct (find_target_some shell tanks 0 k Ef)
    as (target & rect & _ & Hk & Hown & Hrect & Hpoint).
  rewrite Nat.sub_0_r in Hk.
  (* the shell and its holder at the start of the pass *)
  destruct (Forall2_nth_error _ _ _ Hinv i tank Ei) as (tank0 & Ei0 & Hages & _).
  assert (Hshells : Forall2 shell_ages (shells tank0) (shells tank))
    by apply Hages.
  destruct (Forall2_nth_error _ _ _ Hshells j shell Ej)
    as (shell0 & Ej0 & Hp & _ & Ho & _ & Hal).
  (* the target at the start of the pass *)
  destruct (Forall2_nth_error _ _ _ Hinv k target Hk)
    as (target0 & Ek0 & Hages_k & _).
  destruct (tank_ages_rect target0 target rect Hages_k Hrect) as [Hrect0 Hid].
  assert (Hstruck : struck_by tanks0 target0).
  { exists tank0, shell0, rect.
    split; [eapply nth_error_In; exact Ei0|].
    split; [eapply nth_error_In; exact Ej0|].
    split; [apply Hal; exact Ea|].
    split; [rewrite <- Ho, <- Hid; auto|].
    split; [exact Hrect0|]. rewrite <- Hp. exact Hpoint. }
  apply Forall2_update_nth.
  - apply Forall2_update_nth; [exact Hinv|].
    intros a0 a _ _ [Hag Hst]. split; [apply tank_ages_kill_shell; exact Hag|].
    cbn [alive kill_shell set_shells]. exact Hst.
  - intros a0 a Ha0 _ [Hag _]. split; [apply tank_ages_dead; exact Hag|].
    intros _ _. rewrite Ek0 in Ha0. injection Ha0 as <-. exact Hstruck.
Qed.

Lemma pass_inv_strike_all (tanks0 tanks : list Tank) (i : nat) :
  pass_inv tanks0 tanks -> pass_inv tanks0 (strike_all tanks i).
Proof.
  intros Hinv. unfold strike_all.
  destruct (nth_error tanks i) as [tank|]; [|exact Hinv].
  generalize (seq 0 (length (shells tank))). intros js.
  revert tanks Hinv. induction js as [|j js IH]; intros tanks Hinv;
    cbn [fold_left]; [exact Hinv|].
  apply IH. apply pass_inv_strike. exact Hinv.
Qed.

Lemma pass_inv_refl (tanks : list Tank) : pass_inv tanks tanks.
Proof.
  unfold pass_inv.
  assert (H : forall l : list Tank,
             Forall2 (fun t0 t => tank_ages t0 t /\
                                  (alive t0 = true -> alive t = false ->
                                   struck_by tanks t0)) l l).
  { induction l as [|t l IH]; constructor; [|exact IH].
    split.
    - unfold tank_ages. split; [apply same_build_refl|].
      repeat split; auto.
      induction (shells t) as [|s ss IHs]; constructor; [|exact IHs].
      unfold shell_ages. repeat split; auto.
    - intros H1 H2. congruence. }
  apply H.
Qed.

Lemma pass_inv_all (tanks0 : list Tank) (idxs : list nat) :
  forall tanks, pass_inv tanks0 tanks ->
                pass_inv tanks0 (fold_left strike_all idxs tanks).
Proof.
  induction idxs as [|i idxs IH]; intros tanks Hinv; cbn [fold_left]; [exact Hinv|].
  apply IH. apply pass_inv_strike_all. exact Hinv.
Qed.

Lemma shell_collisions_inv (self : Level) :
  pass_inv (player self :: enemies self)
           (player (Level__handle_shell_collisions self)
            :: enemies (Level__handle_shell_collisions self)) /\
  number (Level__handle_shell_collisions self) = number self /\
  walls (Level__handle_shell_collisions self) = walls self /\
  player_destroyed (Level__handle_shell_collisions self) = player_destroyed self.
Proof.
  unfold Level__handle_shell_collisions. cbv zeta.
  pose proof (pass_inv_all (player self :: enemies self)
                (seq 0 (length (player self :: enemies self)))
                (player self :: enemies self)
                (pass_inv_refl _)) as Hinv.
  destruct (fold_left strike_all _ (player self :: enemies self)) as [|p es].
  - inversion Hinv.
  - cbn. auto.
Qed.

(** X8.  The shell-collision pass moves nothing and revives nothing:
    every tank and shell keeps its place, data and owner, and only
    [alive] flags can change, from true to false.  A tank that the pass
    kills had, when the pass began, a live shell of another owner inside
    its rectangle; a tank is never struck by a shell that names it as
    owner.  Walls, level number and the list lengths are untouched. *)
Theorem X8_only_opposing_shells_strike (self : Level) :
  let self' := Level__handle_shell_collisions self in
  Forall2 (fun t0 t =>
             tank_ages t0 t /\
             (alive t0 = true -> alive t = false ->
              struck_by (player self :: enemies self) t0))
          (player self :: enemies self) (player self' :: enemies self') /\
  length (enemies self') = length (enemies self) /\
  number self' = number self /\ walls self' = walls self.
Proof.
  cbv zeta. destruct (shell_collisions_inv self) as (Hinv & Hn & Hw & _).
  split; [exact Hinv|]. split; [|auto].
  apply Forall2_length in Hinv. cbn [length] in Hinv. lia.
Qed.

(** ** One shell, one tank *)

Lemma filter_update_flip {A : Type} (P : A -> bool) (f : A -> A) (l : list A) :
  forall n a,
    nth_error l n = Some a -> P a = true -> P (f a) = false ->
    S (length (filter P (update_nth n f l))) = length (filter P l).
Proof.
  induction l as [|b l IH]; intros [|n] a Hn Hp Hf; cbn [nth_error] in Hn;
    try discriminate; cbn [update_nth filter].
  - injection Hn as ->. rewrite Hp, Hf. reflexivity.
  - destruct (P b); cbn [length]; rewrite <- (IH n a Hn Hp Hf); reflexivity.
Qed.

Lemma map_update_same {A B : Type} (g : A -> B) (f : A -> A) (l : list A) :
  (forall a, g (f a) = g a) ->
  forall n, map g (update_nth n f l) = map g l.
Proof.
  intros Hg. induction l as [|b l IH]; intros [|n]; cbn [update_nth map];
    rewrite ?Hg, ?IH; reflexivity.
Qed.

Lemma live_tanks_map (l l' : list Tank) :
  map alive l' = map alive l -> live_tanks l' = live_tanks l.
Proof.
  unfold live_tanks. revert l'.
  induction l as [|t l IH]; intros [|t' l'] H; cbn [map] in H;
    try discriminate; [reflexivity|].
  injection H as Ht Hl. cbn [filter]. rewrite Ht.
  destruct (alive t); cbn [length]; rewrite (IH l' Hl); reflexivity.
Qed.

Lemma live_shells_map (l l' : list Tank) :
  map shells l' = map shells l -> live_shells l' = live_shells l.
Proof.
  unfold live_shells. intros H.
  assert (E : flat_map shells l' = flat_map shells l).
  { rewrite !flat_map_concat_map, H. reflexivity. }
  rewrite E. reflexivity.
Qed.

Lemma live_shells_kill (l : list Tank) :
  forall i j t s,
    nth_error l i = Some t -> nth_error (shells t) j = Some s ->
    shell_alive s = true ->
    S (live_shells (update_nth i (kill_shell j) l)) = live_shells l.
Proof.
  unfold live_shells.
  induction l as [|b l IH]; intros [|i] j t s Hi Hj Hs; cbn [nth_error] in Hi;
    try discriminate; cbn [update_nth flat_map]; rewrite !filter_app, !length_app.
  - injection Hi as ->. unfold kill_shell at 1. cbn [shells set_shells].
    pose proof (filter_update_flip shell_alive set_shell_dead (shells t) j s
                  Hj Hs eq_refl) as H.
    unfold set_shell_dead in H. lia.
  - rewrite <- (IH i j t s Hi Hj Hs). lia.
Qed.

(** The effect of one [strike] on the two head counts: none, or one
    live shell and one live tank fewer. *)
Lemma strike_counts (tanks : list Tank) (i j : nat) :
  (live_tanks (strike tanks i j) = live_tanks tanks /\
   live_shells (strike tanks i j) = live_shells tanks) \/
  (S (live_tanks (strike tanks i j)) = live_tanks tanks /\
   S (live_shells (strike tanks i j)) = live_shells tanks).
Proof.
  unfold strike.
  destruct (nth_error tanks i) as [tank|] eqn:Ei; [|left; auto].
  destruct (nth_error (shells tank) j) as [shell|] eqn:Ej; [|left; auto].
  destruct (shell_alive shell) eqn:Ea; cbn [negb]; [|left; auto].
  destruct (find_target shell tanks 0) as [k|] eqn:Ef; [|left; auto].
  right.
  destruct (find_target_some shell tanks 0 k Ef)
    as (target & rect & _ & Hk & _ & Hrect & _).
  rewrite Nat.sub_0_r in Hk.
  destruct (Tank_rect_some target rect Hrect) as (Halive & _).
  set (tanks1 := update_nth i (kill_shell j) tanks).
  assert (Hmap : map alive tanks1 = map alive tanks)
    by (apply map_update_same; reflexivity).
  assert (Hk1 : exists target1, nth_error tanks1 k = Some target1 /\
                                alive target1 = true).
  { assert (H : nth_error (map alive tanks1) k = Some true).
    { rewrite Hmap, nth_error_map, Hk. cbn. rewrite Halive. reflexivity. }
    rewrite nth_error_map in H.
    destruct (nth_error tanks1 k) as [t1|]; [|discriminate].
    cbn in H. injection H as H. eauto. }
  destruct Hk1 as (target1 & Hk1 & Halive1).
  split.
  - unfold live_tanks.
    rewrite (filter_update_flip alive (fun t => set_alive t false) tanks1 k
               target1 Hk1 Halive1 eq_refl).
    apply (live_tanks_map tanks tanks1 Hmap).
  - rewrite (live_shells_map tanks1 (update_nth k _ tanks1))
      by (apply map_update_same; reflexivity).
    apply (live_shells_kill tanks i j tank shell Ei Ej Ea).
Qed.

Lemma counts_inv_strike_all (tanks0 tanks : list Tank) (i : nat) :
  counts_inv tanks0 tanks -> counts_inv tanks0 (strike_all tanks i).
Proof.
  intros Hinv. unfold strike_all.
  destruct (nth_error tanks i) as [tank|]; [|exact Hinv].
  generalize (seq 0 (length (shells tank))). intros js.
  revert tanks Hinv. induction js as [|j js IH]; intros tanks Hinv;
    cbn [fold_left]; [exact Hinv|].
  apply IH. unfold counts_inv in *.
  destruct (strike_counts tanks i j) as [[H1 H2]|[H1 H2]]; lia.
Qed.

(** X9.  In one collision pass the number of tanks killed equals the
    number of shells spent: a shell that strikes dies with the one tank
    it kills, and no tank dies otherwise. *)
Theorem X9_one_tank_per_shell (self : Level) :
  let before := player self :: enemies self in
  let after := player (Level__handle_shell_collisions self)
               :: enemies (Level__handle_shell_collisions self) in
  (live_tanks after + live_shells before
   = live_tanks before + live_shells after)%nat /\
  (live_tanks after <= live_tanks before)%nat /\
  (live_shells after <= live_shells before)%nat.
Proof.
  cbv zeta.
  assert (Hinv : counts_inv (player self :: enemies self)
                   (player (Level__handle_shell_collisions self)
                    :: enemies (Level__handle_shell_collisions self))).
  { unfold Level__handle_shell_collisions. cbv zeta.
    assert (Hall : forall idxs tanks,
               counts_inv (player self :: enemies self) tanks ->
               counts_inv (player self :: enemies self)
                          (fold_left strike_all idxs tanks)).
    { induction idxs as [|i idxs IH]; intros tanks H; cbn [fold_left];
        [exact H|].
      apply IH. apply counts_inv_strike_all. exact H. }
    pose proof (Hall (seq 0 (length (player self :: enemies self)))
                     (player self :: enemies self)) as H.
    assert (H0 : counts_inv (player self :: enemies self)
                            (player self :: enemies self))
      by (unfold counts_inv; lia).
    specialize (H H0).
    destruct (fold_left strike_all _ (player self :: enemies self)) as [|p es].
    - exact H0.
    - cbn [player enemies set_enemies set_player]. exact H. }
  unfold counts_inv in Hinv. lia.
Qed.

(** ** [Level.update] *)

Lemma Forall2_In_r {A B : Type} (R : A -> B -> Prop) (l : list A) (l' : list B) :
  Forall2 R l l' -> forall b, In b l' -> exists a, In a l /\ R a b.
Proof.
  intros H. induction H as [|a b0 l l' Hab Hl IH]; intros b Hb; [destruct Hb|].
  destruct Hb as [<-|Hb].
  - exists a. split; [left; reflexivity | exact Hab].
  - destruct (IH b Hb) as (a' & Hin & Hr). exists a'. split; [right|]; assumption.
Qed.

Lemma Forall2_map_r {A : Type} (R : A -> A -> Prop) (f : A -> A) (l : list A) :
  (forall a, R a (f a)) -> Forall2 R l (map f l).
Proof. intros H. induction l; cbn [map]; constructor; auto. Qed.

Lemma Forall2_trans {A : Type} (R S T : A -> A -> Prop) (l1 l2 l3 : list A) :
  (forall a b c, R a b -> S b c -> T a c) ->
  Forall2 R l1 l2 -> Forall2 S l2 l3 -> Forall2 T l1 l3.
Proof.
  intros Hrs H12. revert l3.
  induction H12 as [|a b l1 l2 Hab H12 IH]; intros l3 H23; inversion H23; subst;
    constructor; eauto.
Qed.

Section FrameFacts.

Variable M : MathLib.

Lemma Level_update_tanks_facts (dt : Q) (keys : Keys) (self : Level) :
  number (Level_update_tanks M dt keys self) = number self /\
  walls (Level_update_tanks M dt keys self) = walls self /\
  player_destroyed (Level_update_tanks M dt keys self) = player_destroyed self /\
  Forall2 carried_over (player self :: enemies self)
          (player (Level_update_tanks M dt keys self)
           :: enemies (Level_update_tanks M dt keys self)).
Proof.
  unfold Level_update_tanks. cbv zeta.
  cbn [number walls player_destroyed player enemies set_player set_enemies].
  repeat split; try reflexivity.
  constructor.
  - destruct (Tank_update_facts M dt keys self (player self)) as (_ & B & A & _).
    split; [exact B | congruence].
  - apply Forall2_map_r. intros e.
    destruct (Tank_update_facts M dt keys
                (set_player self (Tank_update M dt keys self (player self))) e)
      as (_ & B & A & _).
    split; [exact B | congruence].
Qed.

Lemma Level_update_facts (dt : Q) (keys : Keys) (self : Level) :
  let self' := fst (Level_update M dt keys self) in
  let cleared := snd (Level_update M dt keys self) in
  number self' = number self /\ walls self' = walls self /\
  carried_over (player self) (player self') /\
  Forall (fun e => alive e = true) (enemies self') /\
  (length (enemies self') <= length (enemies self))%nat /\
  (forall e', In e' (enemies self') ->
              exists e, In e (enemies self) /\ carried_over e e') /\
  player_destroyed self' = negb (alive (player self')) /\
  (cleared = true <-> enemies self' = [] /\ alive (player self') = true).
Proof.
  cbv zeta. unfold Level_update. cbv zeta.
  cbn [fst snd number walls player enemies player_destroyed
       set_player_destroyed set_enemies].
  destruct (Level_update_tanks_facts dt keys self) as (Hn & Hw & _ & Hcarry).
  set (self2 := Level_update_tanks M dt keys self) in *.
  destruct (shell_collisions_inv self2) as (Hinv & Hn3 & Hw3 & _).
  set (self3 := Level__handle_shell_collisions self2) in *.
  assert (Hall : Forall2 carried_over (player self :: enemies self)
                         (player self3 :: enemies self3)).
  { eapply (Forall2_trans carried_over
              (fun t0 t => tank_ages t0 t /\
                           (alive t0 = true -> alive t = false ->
                            struck_by (player self2 :: enemies self2) t0))
              carried_over); [|exact Hcarry | exact Hinv].
    intros a b c [B1 A1] [(B2 & _ & _ & _ & A2 & _) _].
    split; [eapply same_build_trans; eassumption | auto]. }
  inversion Hall as [|p0 p3 es0 es3 Hp Hes]; subst.
  split; [congruence|]. split; [congruence|]. split; [exact Hp|].
  split; [apply Forall_forall; intros e He; apply filter_In in He; apply He|].
  split.
  { apply Forall2_length in Hes. rewrite Hes.
    clear. induction (enemies self3) as [|e es IH]; cbn [filter length]; [lia|].
    destruct (alive e); cbn [length]; lia. }
  split.
  { intros e' He'. apply filter_In in He'. destruct He' as [He' _].
    apply (Forall2_In_r _ _ _ Hes e' He'). }
  split; [reflexivity|].
  rewrite andb_true_iff, Nat.eqb_eq.
  destruct (filter alive (enemies self3)); cbn [length]; split;
    intros [H1 H2]; split; auto; try discriminate.
Qed.

(** X10.  One frame of [Level.update] keeps the level number and the
    walls, never adds an enemy and never revives one: the enemies left
    are living ones of the enemies before, with their builds unchanged,
    and the player keeps its build and stays dead if it was.  The flag
    [player_destroyed] is the negation of the player's life, and the
    frame reports the level cleared exactly when no enemy is left and
    the player lives, so never together with [player_destroyed]. *)
Theorem X10_frame_contract (dt : Q) (keys : Keys) (self : Level) :
  let self' := fst (Level_update M dt keys self) in
  let cleared := snd (Level_update M dt keys self) in
  number self' = number self /\ walls self' = walls self /\
  carried_over (player self) (player self') /\
  Forall (fun e => alive e = true) (enemies self') /\
  (length (enemies self') <= length (enemies self))%nat /\
  (forall e', In e' (enemies self') ->
              exists e, In e (enemies self) /\ carried_over e e') /\
  player_destroyed self' = negb (alive (player self')) /\
  (cleared = true <-> enemies self' = [] /\ alive (player self') = true) /\
  (cleared = true -> player_destroyed self' = false).
Proof.
  cbv zeta.
  destruct (Level_update_facts dt keys self)
    as (H1 & H2 & H3 & H4 & H5 & H6 & H7 & H8).
  repeat (split; [assumption|]).
  intros Hc. apply H8 in Hc. destruct Hc as [_ Ha]. rewrite H7, Ha. reflexivity.
Qed.

End FrameFacts.

(** ** What the generated map consists of *)

Lemma grid_tile_in_screen (r : Rect) : grid_tile r -> in_screen r.
Proof.
  intros (x & y & Hx & Hy & ->). unfold in_screen, tile_rect.
  cbn [rx ry rw rh].
  change GRID_WIDTH with 20 in Hx. change GRID_HEIGHT with 15 in Hy.
  unfold TILE_SIZE, SCREEN_WIDTH, SCREEN_HEIGHT. lia.
Qed.

Lemma drawn_tiles_in_grid (x y : Z) :
  In (x, y) drawn_tiles -> 0 <= x < GRID_WIDTH /\ 1 <= y < GRID_HEIGHT - 1.
Proof.
  unfold drawn_tiles. intros H. apply in_flat_map in H.
  destruct H as (y' & Hy & H). apply in_map_iff in H.
  destruct H as (x' & E & Hx). injection E as -> ->.
  apply In_py_range in Hy. apply In_py_range in Hx. lia.
Qed.

Lemma border_walls_grid (w : Rect) : In w border_walls -> grid_tile w.
Proof.
  unfold border_walls. intros H. apply in_app_or in H.
  change GRID_WIDTH with 20 in *. change GRID_HEIGHT with 15 in *.
  destruct H as [H|H]; apply in_flat_map in H;
    destruct H as (z & Hz & [H|[H|[]]]); apply In_py_range in Hz; subst w.
  - exists z, 0. change GRID_WIDTH with 20. change GRID_HEIGHT with 15.
    repeat split; lia.
  - exists z, (15 - 1). change GRID_WIDTH with 20. change GRID_HEIGHT with 15.
    repeat split; lia.
  - exists 0, z. change GRID_WIDTH with 20. change GRID_HEIGHT with 15.
    repeat split; lia.
  - exists (20 - 1), z. change GRID_WIDTH with 20. change GRID_HEIGHT with 15.
    repeat split; lia.
Qed.

Lemma generated_walls_grid (G : RandomGen) (l : Level) (w : Rect) :
  In w (walls (Level_generate_map G l)) -> grid_tile w.
Proof.
  rewrite generate_map_walls. intros H. apply filter_In in H.
  destruct H as [H _]. apply in_app_or in H. destruct H as [H|H].
  - destruct (scatter_In G _ _ _ H) as (x & y & Hin & ->).
    apply drawn_tiles_in_grid in Hin. exists x, y.
    repeat split; try reflexivity; lia.
  - apply border_walls_grid. exact H.
Qed.

(** X11.  Every wall of a generated map is the 48 x 48 rectangle of a
    grid tile and lies inside the 960 x 720 screen, whatever the
    generator draws and whatever walls the level held before; the whole
    border is among them and there are at most 330 walls. *)
Theorem X11_generated_walls_are_grid_tiles (G : RandomGen) (l : Level) :
  Forall (fun w => grid_tile w /\ in_screen w /\ rw w = 48 /\ rh w = 48)
         (walls (Level_generate_map G l)) /\
  (forall w, In w border_walls -> In w (walls (Level_generate_map G l))) /\
  (length (walls (Level_generate_map G l)) <= 330)%nat.
Proof.
  split; [|split].
  - apply Forall_forall. intros w Hw.
    pose proof (generated_walls_grid G l w Hw) as Hg.
    split; [exact Hg|]. split; [apply grid_tile_in_screen; exact Hg|].
    destruct Hg as (x & y & _ & _ & ->). split; reflexivity.
  - intros w Hw. rewrite generate_map_walls. apply filter_In. split.
    + apply in_or_app. right. exact Hw.
    + assert (Hb : exists x y, w = tile_rect x y /\
                     (x = 0 \/ x = GRID_WIDTH - 1 \/ y = 0 \/ y = GRID_HEIGHT - 1)).
      { unfold border_walls in Hw. apply in_app_or in Hw.
        destruct Hw as [H|H]; apply in_flat_map in H;
          destruct H as (z & _ & [H|[H|[]]]); subst w; eauto 10. }
      destruct Hb as (x & y & -> & Hb).
      rewrite border_tile_not_safe by exact Hb. reflexivity.
  - rewrite generate_map_walls.
    eapply Nat.le_trans; [apply filter_length_le|].
    rewrite length_app.
    assert (Hs : forall tiles rng,
               (length (fst (scatter G tiles rng [])) <= length tiles)%nat).
    { induction tiles as [|[x y] rest IH]; intros rng; cbn [scatter];
        [cbn; lia|].
      destruct (rng_random G rng) as [r rng'].
      destruct (Qlt_le_dec r (12 # 100)).
      - rewrite scatter_acc, !length_app. cbn [length]. specialize (IH rng'). lia.
      - cbn [length]. specialize (IH rng'). lia. }
    specialize (Hs drawn_tiles (Random G (number l))).
    assert (length drawn_tiles = 260%nat) by (vm_compute; reflexivity).
    assert (length border_walls = 70%nat) by (vm_compute; reflexivity).
    lia.
Qed.

(** ** [_carve_player_spawn] *)

Lemma safe_tiles_near (px py tx ty : Z) :
  In (tx, ty) (safe_tiles px py) ->
  0 < tx < GRID_WIDTH - 1 -> 0 < ty < GRID_HEIGHT - 1 ->
  Z.abs (tx - px) <= 2 /\ Z.abs (ty - py) <= 2.
Proof.
  unfold safe_tiles, safe_radius. intros H Hx Hy.
  apply in_flat_map in H. destruct H as (dy & Hdy & H).
  apply in_map_iff in H. destruct H as (dx & E & Hdx).
  apply In_py_range in Hdy. apply In_py_range in Hdx.
  injection E as Ex Ey.
  change (GRID_WIDTH - 1) with 19 in *. change (GRID_HEIGHT - 1) with 14 in *.
  lia.
Qed.

Lemma is_safe_near (px py : Z) (w : Rect) :
  is_safe (safe_tiles px py) w = true ->
  0 < rx w / TILE_SIZE < GRID_WIDTH - 1 /\
  0 < ry w / TILE_SIZE < GRID_HEIGHT - 1 /\
  Z.abs (rx w / TILE_SIZE - px) <= 2 /\ Z.abs (ry w / TILE_SIZE - py) <= 2.
Proof.
  unfold is_safe.
  destruct ((rx w / TILE_SIZE =? 0) || (rx w / TILE_SIZE =? GRID_WIDTH - 1)
            || (ry w / TILE_SIZE =? 0) || (ry w / TILE_SIZE =? GRID_HEIGHT - 1))
    eqn:Eb; [discriminate|].
  intros H. apply existsb_exists in H. destruct H as ([tx ty] & Hin & Heq).
  unfold tile_eqb in Heq. cbn [fst snd] in Heq.
  apply andb_true_iff in Heq. destruct Heq as [E1 E2].
  apply Z.eqb_eq in E1. apply Z.eqb_eq in E2. subst tx ty.
  repeat (apply orb_false_iff in Eb; destruct Eb as [Eb ?]).
  rewrite Z.eqb_neq in *.
  assert (Hgrid : forall dx dy,
             In dx (py_range (- safe_radius) (safe_radius + 1)) ->
             In dy (py_range (- safe_radius) (safe_radius + 1)) ->
             0 <= Z.max 0 (Z.min (GRID_WIDTH - 1) (px + dx)) <= GRID_WIDTH - 1 /\
             0 <= Z.max 0 (Z.min (GRID_HEIGHT - 1) (py + dy)) <= GRID_HEIGHT - 1).
  { intros dx dy _ _. change (GRID_WIDTH - 1) with 19.
    change (GRID_HEIGHT - 1) with 14. lia. }
  assert (Hrange : 0 <= rx w / TILE_SIZE <= GRID_WIDTH - 1 /\
                   0 <= ry w / TILE_SIZE <= GRID_HEIGHT - 1).
  { pose proof Hin as Hin'. unfold safe_tiles in Hin'.
    apply in_flat_map in Hin'. destruct Hin' as (dy & Hdy & Hin').
    apply in_map_iff in Hin'. destruct Hin' as (dx & E & Hdx).
    injection E as <- <-. apply Hgrid; assumption. }
  assert (Hx : 0 < rx w / TILE_SIZE < GRID_WIDTH - 1) by lia.
  assert (Hy : 0 < ry w / TILE_SIZE < GRID_HEIGHT - 1) by lia.
  clear Hgrid.
  destruct (safe_tiles_near px py _ _ Hin Hx Hy). auto.
Qed.

(** X12.  Clearing the spawn zone only removes walls.  A wall it
    removes sits on a tile that is off the border and within two tiles
    of the player's tile in both directions; border walls and walls
    further away stay.  Doing it twice changes nothing more, and level
    number, enemies and player are untouched. *)
Theorem X12_carving_removes_only_the_neighbourhood (self : Level) :
  let px := py_int (py_floordiv (vx (position (player self)))
                                (inject_Z TILE_SIZE)) in
  let py := py_int (py_floordiv (vy (position (player self)))
                                (inject_Z TILE_SIZE)) in
  let carved := Level__carve_player_spawn self in
  (forall w, In w (walls carved) -> In w (walls self)) /\
  (forall w, In w (walls self) ->
             In w (walls carved) \/
             (0 < rx w / TILE_SIZE < GRID_WIDTH - 1 /\
              0 < ry w / TILE_SIZE < GRID_HEIGHT - 1 /\
              Z.abs (rx w / TILE_SIZE - px) <= 2 /\
              Z.abs (ry w / TILE_SIZE - py) <= 2)) /\
  Level__carve_player_spawn carved = carved /\
  number carved = number self /\ enemies carved = enemies self /\
  player carved = player self.
Proof.
  cbv zeta. unfold Level__carve_player_spawn.
  cbn [walls set_walls number enemies player].
  split; [intros w Hw; apply filter_In in Hw; apply Hw|].
  split.
  { intros w Hw.
    destruct (is_safe (safe_tiles
                         (py_int (py_floordiv (vx (position (player self)))
                                              (inject_Z TILE_SIZE)))
                         (py_int (py_floordiv (vy (position (player self)))
                                              (inject_Z TILE_SIZE)))) w) eqn:Es.
    - right. apply is_safe_near. exact Es.
    - left. apply filter_In. split; [exact Hw|]. rewrite Es. reflexivity. }
  split; [|auto].
  unfold set_walls. cbn [number enemies player player_destroyed].
  f_equal.
  set (f := fun wall => negb (is_safe _ wall)).
  induction (walls self) as [|w ws IH]; [reflexivity|].
  cbn [filter]. destruct (f w) eqn:Ef; [cbn [filter]; rewrite Ef, IH|];
    [reflexivity | exact IH].
Qed.

(** ** A fresh level *)

Lemma colliderect_grow (a a' w : Rect) :
  0 < rw a -> 0 < rh a ->
  rx a' <= rx a -> rx a + rw a <= rx a' + rw a' ->
  ry a' <= ry a -> ry a + rh a <= ry a' + rh a' ->
  colliderect a w = true -> colliderect a' w = true.
Proof.
  intros Hw Hh Hx Hx' Hy Hy'. unfold colliderect.
  destruct (rw w =? 0) eqn:Eww; [rewrite !orb_true_r; cbn; discriminate|].
  destruct (rh w =? 0) eqn:Ewh; [rewrite !orb_true_r; discriminate|].
  assert (Ea : (rw a =? 0) = false) by (apply Z.eqb_neq; lia).
  assert (Ea' : (rh a =? 0) = false) by (apply Z.eqb_neq; lia).
  assert (Eb : (rw a' =? 0) = false) by (apply Z.eqb_neq; lia).
  assert (Eb' : (rh a' =? 0) = false) by (apply Z.eqb_neq; lia).
  rewrite Ea, Ea', Eb, Eb'. cbn [orb].
  rewrite !andb_true_iff, !Z.ltb_lt, !Z.gtb_lt. lia.
Qed.

Lemma enemy_rect (ws : list Rect) (e : Tank) :
  well_placed ws e ->
  exists x y,
    0 <= x /\ 0 <= y /\
    candidate_rect (position e) = tile_rect x y /\
    Tank_rect e = Some (mkRect (x * 48 + 6) (y * 48 + 6) 36 36).
Proof.
  intros (Ha & _ & Hs & _ & _ & _ & x & y & Hx & Hy & Hp & _).
  exists x, y. split; [lia|]. split; [lia|]. rewrite Hp.
  split; [apply candidate_rect_tile; lia|].
  unfold Tank_rect. rewrite Hs, Ha, Hp. cbn [Z.eqb orb negb].
  unfold candidate_position. cbn [vx vy]. unfold TILE_SIZE.
  rewrite (py_int_integer _ (x * 48 + 6)), (py_int_integer _ (y * 48 + 6));
    try lia.
  - reflexivity.
  - rewrite inject_Z_plus. change (inject_Z 48) with 48%Q.
    change (inject_Z 36) with 36%Q. change (inject_Z 6) with 6%Q.
    match goal with |- context [inject_Z (?v * 48)] =>
      generalize (inject_Z (v * 48)) end. intros; field.
  - rewrite inject_Z_plus. change (inject_Z 48) with 48%Q.
    change (inject_Z 36) with 36%Q. change (inject_Z 6) with 6%Q.
    match goal with |- context [inject_Z (?v * 48)] =>
      generalize (inject_Z (v * 48)) end. intros; field.
Qed.

(** A well placed enemy touches no wall, so wall resolution leaves it. *)
Lemma well_placed_clear (ws : list Rect) (e : Tank) :
  well_placed ws e ->
  exists r,
    Tank_rect e = Some r /\
    (forall w, In w ws -> colliderect r w = false) /\
    Tank__handle_wall_collisions e ws = e.
Proof.
  intros Hwp. destruct (enemy_rect ws e Hwp) as (x & y & Hx & Hy & Hc & Hr).
  assert (Hclear : forall w, In w ws ->
                     colliderect (mkRect (x * 48 + 6) (y * 48 + 6) 36 36) w = false).
  { intros w Hw.
    destruct (colliderect (mkRect (x * 48 + 6) (y * 48 + 6) 36 36) w) eqn:E;
      [|reflexivity].
    apply (colliderect_grow _ (tile_rect x y)) in E;
      unfold tile_rect, TILE_SIZE; cbn [rx ry rw rh]; try lia.
    destruct Hwp as (_ & _ & _ & _ & _ & _ & x' & y' & _ & _ & _ & Ho).
    unfold overlaps_wall in Ho. rewrite Hc in Ho.
    assert (existsb (fun wall => colliderect (tile_rect x y) wall) ws = true)
      by (apply existsb_exists; exists w; auto).
    congruence. }
  eexists. split; [exact Hr|]. split; [exact Hclear|].
  apply (handle_wall_collisions_clear e ws _ Hr Hclear).
Qed.

Section FreshLevel.

Variable G : RandomGen.

Lemma place_enemies_well_placed (n : nat) :
  forall self rng,
    Forall (well_placed (walls self)) (enemies self) ->
    Forall (well_placed (walls self))
           (enemies (fst (place_enemies G n self rng))).
Proof.
  induction n as [|n IH]; intros self rng H; cbn [place_enemies]; [exact H|].
  destruct (place_enemy_keeps G 100 self rng) as (_ & Hw & _).
  pose proof (place_enemy_spec G 100 self rng) as Hspec.
  destruct (place_enemy G 100 self rng) as [self' rng']. cbn [fst snd] in *.
  rewrite <- Hw. apply IH. rewrite Hw.
  destruct Hspec as (k & _ & _ & [(_ & He & _)|(j & _ & _ & Hfree & He)]);
    rewrite He; [exact H|].
  apply Forall_app. split; [exact H|]. constructor; [|constructor].
  destruct (candidate_in_upper_half G j rng) as (Hx & Hy & _).
  unfold well_placed. cbn [alive is_player size shells reload_time
                           shell_cooldown position new_enemy].
  repeat (split; [reflexivity|]).
  exists (fst (nth_tile G j rng)), (snd (nth_tile G j rng)).
  split; [exact Hx|]. split; [exact Hy|]. split; [reflexivity | exact Hfree].
Qed.

(** The spawn neighbourhood holds no wall (as C6 states it, for use
    below). *)
Lemma no_wall_on_safe_tile (N x y : Z) (w : Rect) :
  0 < x < GRID_WIDTH - 1 -> 0 < y < GRID_HEIGHT - 1 ->
  Z.abs (x - fst spawn_tile) <= 2 -> Z.abs (y - snd spawn_tile) <= 2 ->
  In w (walls (Level_init G N)) -> w <> tile_rect x y.
Proof.
  intros Hx Hy Hdx Hdy Hw E. subst w.
  rewrite Level_init_walls, generate_map_walls in Hw.
  apply filter_In in Hw. destruct Hw as [_ Hsafe]. cbn [player] in Hsafe.
  change (py_int (py_floordiv (vx (position new_player)) (inject_Z TILE_SIZE)))
    with (fst spawn_tile) in Hsafe.
  change (py_int (py_floordiv (vy (position new_player)) (inject_Z TILE_SIZE)))
    with (snd spawn_tile) in Hsafe.
  rewrite spawn_neighbourhood_safe in Hsafe by assumption. discriminate.
Qed.

Lemma Level_init_player (N : Z) : player (Level_init G N) = new_player.
Proof.
  unfold Level_init.
  destruct (spawn_enemies_keeps G
              (Level_generate_map G (mkLevel N [] [] new_player false)))
    as (_ & _ & Hp).
  rewrite Hp. apply (generate_map_keeps G).
Qed.

Lemma Level_init_number (N : Z) : number (Level_init G N) = N.
Proof.
  unfold Level_init.
  destruct (spawn_enemies_keeps G
              (Level_generate_map G (mkLevel N [] [] new_player false)))
    as (Hn & _ & _).
  rewrite Hn. apply (generate_map_keeps G).
Qed.

Lemma player_spawn_clear (N : Z) (w : Rect) :
  In w (walls (Level_init G N)) -> colliderect (mkRect 462 630 36 36) w = false.
Proof.
  intros Hw.
  destruct (colliderect (mkRect 462 630 36 36) w) eqn:E; [|reflexivity].
  exfalso.
  assert (Hg : grid_tile w).
  { rewrite Level_init_walls in Hw. apply (generated_walls_grid G _ _ Hw). }
  destruct Hg as (a & b & Ha & Hb & ->).
  apply colliderect_positive in E;
    unfold tile_rect, TILE_SIZE in *; cbn [rx ry rw rh] in *; try lia.
  assert (Hab : (a = 9 \/ a = 10) /\ b = 13) by lia.
  assert (spawn_tile = (10, 13)) as Es by (vm_compute; reflexivity).
  refine (no_wall_on_safe_tile N a b _ _ _ _ _ Hw eq_refl);
    rewrite ?Es; cbn [fst snd];
    change (GRID_WIDTH - 1) with 19; change (GRID_HEIGHT - 1) with 14; lia.
Qed.

Lemma Level_init_enemies_well_placed (N : Z) :
  Forall (well_placed (walls (Level_init G N))) (enemies (Level_init G N)).
Proof.
  unfold Level_init, Level_spawn_enemies.
  set (l1 := Level_generate_map G (mkLevel N [] [] new_player false)).
  destruct (place_enemies_keeps G (Z.to_nat (enemy_count (number l1))) l1
              (Random G (number l1 * 31 + 7))) as (_ & Hw & _).
  rewrite Hw. apply place_enemies_well_placed.
  destruct (generate_map_keeps G (mkLevel N [] [] new_player false))
    as (_ & _ & He).
  subst l1. rewrite He. constructor.
Qed.

(** X13.  In a freshly built level no vehicle starts inside a wall, for
    any generator and level number: neither the player's rectangle nor
    any enemy's overlaps a wall, so wall resolution leaves every one of
    them where it is.  Each enemy is a live AI tank without shells, at
    the centre of a tile of columns 1 to 18 and rows 1 to 7. *)
Theorem X13_fresh_level_vehicles_clear_of_walls (N : Z) :
  let l := Level_init G N in
  player l = new_player /\
  Tank_rect (player l) = Some (mkRect 462 630 36 36) /\
  (forall w, In w (walls l) -> colliderect (mkRect 462 630 36 36) w = false) /\
  Tank__handle_wall_collisions (player l) (walls l) = player l /\
  Forall (fun e =>
            alive e = true /\ is_player e = false /\ shells e = [] /\
            (exists x y,
                1 <= x <= GRID_WIDTH - 2 /\ 1 <= y <= GRID_HEIGHT / 2 /\
                position e = candidate_position x y) /\
            (exists r,
                Tank_rect e = Some r /\
                forall w, In w (walls l) -> colliderect r w = false) /\
            Tank__handle_wall_collisions e (walls l) = e)
         (enemies l).
Proof.
  cbv zeta. rewrite Level_init_player.
  assert (Hr : Tank_rect new_player = Some (mkRect 462 630 36 36))
    by (vm_compute; reflexivity).
  split; [reflexivity|]. split; [exact Hr|].
  split; [intros w; apply player_spawn_clear|].
  split.
  - apply (handle_wall_collisions_clear _ _ _ Hr).
    intros w. apply player_spawn_clear.
  - pose proof (Level_init_enemies_well_placed N) as H.
    rewrite Forall_forall in *. intros e He. specialize (H e He).
    destruct (well_placed_clear _ e H) as (r & Hre & Hclear & Hstay).
    destruct H as (Ha & Hp & _ & Hs & _ & _ & x & y & Hx & Hy & Hpos & _).
    repeat (split; [assumption|]).
    split; [exists x, y; split; [exact Hx|]; split; [exact Hy | exact Hpos]|].
    split; [exists r; split; [exact Hre | exact Hclear] | exact Hstay].
Qed.

End FreshLevel.

(** ** [spawn_enemies] on any level *)

Section SpawnMore.

Variable G : RandomGen.

Lemma place_enemy_appends (n : nat) (self : Level) (rng : rng_state G) :
  exists added,
    enemies (fst (place_enemy G n self rng)) = enemies self ++ added /\
    (length added <= 1)%nat.
Proof.
  destruct (place_enemy_spec G n self rng)
    as (k & _ & _ & [(_ & He & _)|(j & _ & _ & _ & He)]); rewrite He.
  - exists []. rewrite app_nil_r. split; [reflexivity | cbn; lia].
  - eexists. split; [reflexivity | cbn; lia].
Qed.

Lemma place_enemies_appends (n : nat) :
  forall self rng,
    exists added,
      enemies (fst (place_enemies G n self rng)) = enemies self ++ added /\
      (length added <= n)%nat.
Proof.
  induction n as [|n IH]; intros self rng; cbn [place_enemies].
  - exists []. rewrite app_nil_r. split; [reflexivity | cbn; lia].
  - destruct (place_enemy_appends 100 self rng) as (a1 & E1 & L1).
    destruct (place_enemy G 100 self rng) as [self' rng']. cbn [fst] in *.
    destruct (IH self' rng') as (a2 & E2 & L2).
    exists (a1 ++ a2). rewrite E2, E1, app_assoc, length_app.
    split; [reflexivity | lia].
Qed.

(** For level numbers 0 and below the count is not positive. *)
Lemma enemy_count_nonpositive (N : Z) : N <= 0 -> enemy_count N <= 0.
Proof.
  intros HN. unfold enemy_count, py_int, LEVEL_BASE_ENEMIES, LEVEL_ENEMY_SCALE,
    Qplus, Qmult, inject_Z. cbn [Qnum Qden].
  change (Z.pos (1 * (1 * 100))) with 100.
  change (Z.pos (1 * 100)) with 100.
  apply Z.le_trans with (Z.quot 75 100);
    [apply Z.quot_le_mono; lia | vm_compute; discriminate].
Qed.

(** X14.  [spawn_enemies] only appends: the enemies a level already
    holds stay, in order, in front of the new ones (it does not clear
    the list as [generate_map] clears the walls), and at most
    [enemy_count] are added; walls, number and player are untouched.
    For a level number of 0 or below nothing is added at all. *)
Theorem X14_spawn_only_appends (self : Level) :
  (exists added,
      enemies (Level_spawn_enemies G self) = enemies self ++ added /\
      (length added <= Z.to_nat (enemy_count (number self)))%nat) /\
  walls (Level_spawn_enemies G self) = walls self /\
  number (Level_spawn_enemies G self) = number self /\
  player (Level_spawn_enemies G self) = player self /\
  (number self <= 0 ->
   enemies (Level_spawn_enemies G self) = enemies self).
Proof.
  destruct (spawn_enemies_keeps G self) as (Hn & Hw & Hp).
  split; [unfold Level_spawn_enemies; apply place_enemies_appends|].
  split; [exact Hw|]. split; [exact Hn|]. split; [exact Hp|].
  intros Hneg. unfold Level_spawn_enemies.
  pose proof (enemy_count_nonpositive (number self) Hneg) as Hc.
  replace (Z.to_nat (enemy_count (number self))) with O by lia.
  reflexivity.
Qed.

End SpawnMore.

(** ** States the game can reach *)

Lemma NoDup_snoc {A : Type} (l : list A) (x : A) :
  NoDup l -> ~ In x l -> NoDup (l ++ [x]).
Proof.
  induction l as [|a l IH]; intros Hnd Hx; cbn [app].
  - constructor; [intros [] | constructor].
  - inversion Hnd as [|? ? Ha Hl]; subst. constructor.
    + intros Hin. apply in_app_or in Hin. destruct Hin as [Hin|[Hin|[]]].
      * apply Ha. exact Hin.
      * apply Hx. left. symmetry. exact Hin.
    + apply IH; [exact Hl|]. intros Hin. apply Hx. right. exact Hin.
Qed.

Lemma NoDup_map_filter {A B : Type} (f : A -> B) (P : A -> bool) (l : list A) :
  NoDup (map f l) -> NoDup (map f (filter P l)).
Proof.
  induction l as [|a l IH]; intros H; cbn [filter map]; [constructor|].
  cbn [map] in H. inversion H as [|? ? Ha Hl]; subst.
  destruct (P a); [|apply IH; exact Hl].
  cbn [map]. constructor; [|apply IH; exact Hl].
  intros Hin. apply Ha. apply in_map_iff in Hin.
  destruct Hin as (b & Hb & Hin). apply filter_In in Hin.
  apply in_map_iff. exists b. tauto.
Qed.

Lemma fresh_ident_above (ts : list Tank) (t : Tank) :
  In t ts -> (ident t < fresh_ident ts)%nat.
Proof.
  unfold fresh_ident. induction ts as [|a ts IH]; intros H; [destruct H|].
  cbn [map fold_right]. destruct H as [->|H]; [lia|].
  specialize (IH H). lia.
Qed.

Lemma Forall2_Forall {A : Type} (R : A -> A -> Prop) (P Q : A -> Prop)
  (l l' : list A) :
  (forall a b, R a b -> P a -> Q b) ->
  Forall2 R l l' -> Forall P l -> Forall Q l'.
Proof.
  intros H H2. induction H2 as [|a b l l' Hab Hl IH]; intros HP;
    [constructor|].
  inversion HP; subst. constructor; eauto.
Qed.

Lemma Forall_filter {A : Type} (P : A -> Prop) (f : A -> bool) (l : list A) :
  Forall P l -> Forall P (filter f l).
Proof.
  intros H. apply Forall_forall. intros a Ha. apply filter_In in Ha.
  rewrite Forall_forall in H. apply H. apply Ha.
Qed.

Lemma same_build_idents (l l' : list Tank) :
  Forall2 same_build l l' -> map ident l' = map ident l.
Proof.
  intros H. induction H as [|a b l l' Hab Hl IH]; [reflexivity|].
  cbn [map]. destruct Hab as (Hi & _). rewrite Hi, IH. reflexivity.
Qed.

Lemma kept_refl (t : Tank) : kept t t.
Proof. split; [apply same_build_refl | auto]. Qed.

Lemma kept_trans (a b c : Tank) : kept a b -> kept b c -> kept a c.
Proof.
  intros (B1 & O1 & T1) (B2 & O2 & T2).
  split; [eapply same_build_trans; eassumption | auto].
Qed.

Lemma Shell_update_owner (dt : Q) (ws : list Rect) (s : Shell) :
  shell_owner (Shell_update dt ws s) = shell_owner s.
Proof. unfold Shell_update. destruct (negb (shell_alive s)); reflexivity. Qed.

Section ReachFacts.

Variable M : MathLib.

Lemma fire_owned (t : Tank) : owned t -> owned (Tank_fire M t).
Proof.
  unfold owned, Tank_fire. intros H.
  destruct ((if Qlt_le_dec 0 (reload_time t) then true else false)
            || negb (alive t)); [exact H|].
  cbn [shells ident set_reload_time set_shells].
  apply Forall_app. split; [exact H|]. constructor; [reflexivity | constructor].
Qed.

Lemma fire_kept (t : Tank) : kept t (Tank_fire M t).
Proof.
  split; [apply (fire_build M t)|]. split; [apply fire_owned|].
  intros H. apply (fire_keeps_timer_in_range M t H).
Qed.

Lemma update_enemy_owned (dt : Q) (level : Level) (t : Tank) :
  owned t -> owned (Tank__update_enemy M dt level t).
Proof.
  intros H. unfold Tank__update_enemy.
  set (direction := vsub (position (player level)) (position t)).
  set (self1 := if Qlt_le_dec 1 (length_squared direction) then _ else t).
  set (self2 := if Qlt_le_dec _ (vlength M direction) then _ else self1).
  assert (H1 : owned self1).
  { subst self1. destruct (Qlt_le_dec 1 (length_squared direction)); exact H. }
  assert (H2 : owned self2).
  { subst self2. destruct (Qlt_le_dec _ (vlength M direction)); exact H1. }
  destruct ((if Qlt_le_dec (vlength M direction) (inject_Z SCREEN_WIDTH)
             then true else false) && Qle_bool (reload_time self2) 0);
    [apply fire_owned|]; exact H2.
Qed.

Lemma Tank_update_kept (dt : Q) (keys : Keys) (level : Level) (t : Tank) :
  kept t (Tank_update M dt keys level t).
Proof.
  destruct (Tank_update_facts M dt keys level t) as (_ & B & _ & _).
  split; [exact B|]. split.
  - intros Ho. unfold owned.
    destruct B as (Hi & _). rewrite Hi.
    unfold Tank_update. cbv zeta. cbn [shells set_shells].
    set (self1 := if alive t then _ else t).
    assert (H1 : Forall (fun s => shell_owner s = ident t) (shells self1)).
    { subst self1. destruct (alive t); [|exact Ho].
      set (s0 := set_reload_time t _).
      assert (H0 : owned s0) by exact Ho.
      destruct (handle_wall_collisions_build
                  (if is_player s0 then Tank__update_player M dt keys level s0
                   else Tank__update_enemy M dt level s0) (walls level))
        as (_ & _ & ->).
      destruct (is_player s0).
      - destruct (update_player_build M dt keys level s0) as (_ & _ & ->).
        exact H0.
      - pose proof (update_enemy_owned dt level s0 H0) as H.
        unfold owned in H.
        destruct (update_enemy_build M dt level s0) as ((Hi' & _) & _).
        rewrite Hi' in H. exact H. }
    apply Forall_filter. apply Forall_forall. intros s Hs.
    apply in_map_iff in Hs. destruct Hs as (s0 & <- & Hin).
    rewrite Shell_update_owner. rewrite Forall_forall in H1. apply H1. exact Hin.
  - intros Ht. apply (update_keeps_timer_in_range M dt keys level t Ht).
Qed.

Lemma tank_ages_kept (t0 t : Tank) : tank_ages t0 t -> kept t0 t.
Proof.
  intros (B & _ & _ & Hr & _ & Hs). split; [exact B|]. split.
  - unfold owned. destruct B as (Hi & _). rewrite Hi. clear Hi Hr.
    induction Hs as [|s0 s l0 l Hs Hl IH]; intros Ho; [constructor|].
    inversion Ho; subst. constructor; [|apply IH; assumption].
    destruct Hs as (_ & _ & Hown & _). congruence.
  - unfold timer_ok. destruct B as (_ & _ & _ & _ & _ & Hc & _).
    rewrite Hr, Hc. auto.
Qed.

(** One frame of [Level.update], tank by tank: the tanks after the
    collision pass match the tanks before the frame, and the enemies
    kept are the living ones among them. *)
Lemma Level_update_kept (dt : Q) (keys : Keys) (self : Level) :
  exists p3 es3,
    Forall2 kept (player self :: enemies self) (p3 :: es3) /\
    player (fst (Level_update M dt keys self)) = p3 /\
    enemies (fst (Level_update M dt keys self)) = filter alive es3.
Proof.
  unfold Level_update. cbv zeta.
  cbn [fst player enemies set_player_destroyed set_enemies].
  set (self2 := Level_update_tanks M dt keys self).
  destruct (shell_collisions_inv self2) as (Hinv & _).
  set (self3 := Level__handle_shell_collisions self2) in *.
  exists (player self3), (enemies self3).
  split; [|split; reflexivity].
  assert (H12 : Forall2 kept (player self :: enemies self)
                        (player self2 :: enemies self2)).
  { subst self2. unfold Level_update_tanks. cbv zeta.
    cbn [player enemies set_player set_enemies].
    constructor; [apply Tank_update_kept|].
    apply Forall2_map_r. intros e. apply Tank_update_kept. }
  eapply (Forall2_trans kept
            (fun t0 t => tank_ages t0 t /\
                         (alive t0 = true -> alive t = false ->
                          struck_by (player self2 :: enemies self2) t0))
            kept); [|exact H12 | exact Hinv].
  intros a b c Hab [Hbc _]. eapply kept_trans; [exact Hab|].
  apply tank_ages_kept. exact Hbc.
Qed.

End ReachFacts.

Section Reach.

Variable M : MathLib.
Variable G : RandomGen.

Lemma place_enemy_idents (n : nat) (self : Level) (rng : rng_state G) :
  NoDup (map ident (player self :: enemies self)) ->
  NoDup (map ident (player self
                    :: enemies (fst (place_enemy G n self rng)))).
Proof.
  intros H.
  destruct (place_enemy_spec G n self rng)
    as (k & _ & _ & [(_ & He & _)|(j & _ & _ & _ & He)]); rewrite He;
    [exact H|].
  change (player self :: enemies self ++ [?e])
    with ((player self :: enemies self) ++ [e]).
  rewrite map_app. apply NoDup_snoc; [exact H|].
  intros Hin. apply in_map_iff in Hin. destruct Hin as (t & Ht & Hin).
  pose proof (fresh_ident_above _ t Hin) as Hlt.
  unfold new_enemy in Ht. cbn [ident] in Ht. lia.
Qed.

Lemma place_enemies_idents (n : nat) :
  forall self rng,
    NoDup (map ident (player self :: enemies self)) ->
    NoDup (map ident (player self
                      :: enemies (fst (place_enemies G n self rng)))).
Proof.
  induction n as [|n IH]; intros self rng H; cbn [place_enemies]; [exact H|].
  pose proof (place_enemy_idents 100 self rng H) as H1.
  destruct (place_enemy_keeps G 100 self rng) as (_ & _ & Hp).
  destruct (place_enemy G 100 self rng) as [self' rng']. cbn [fst] in *.
  rewrite <- Hp. apply IH. rewrite Hp. exact H1.
Qed.

Lemma well_placed_fit (ws : list Rect) (e : Tank) :
  well_placed ws e -> fit e /\ is_player e = false.
Proof.
  intros (Ha & Hp & Hs & Hsh & Hr & Hc & _).
  split; [|exact Hp]. split; [exact Ha|]. split; [exact Hs|]. split.
  - unfold owned. rewrite Hsh. constructor.
  - unfold timer_ok. rewrite Hr, Hc. split; vm_compute; discriminate.
Qed.

Lemma Level_init_ok (n : Z) : level_ok G n (Level_init G n).
Proof.
  unfold level_ok.
  split; [apply Level_init_number|]. split; [reflexivity|].
  rewrite Level_init_player.
  split; [reflexivity|].
  pose proof (Level_init_enemies_well_placed G n) as Hwp.
  split.
  { eapply Forall_impl; [|exact Hwp]. intros e He.
    apply (well_placed_fit _ e He). }
  split.
  { constructor.
    - split; [reflexivity|]. split; [reflexivity|]. split.
      + constructor.
      + split; vm_compute; discriminate.
    - eapply Forall_impl; [|exact Hwp]. intros e He.
      apply (well_placed_fit _ e He). }
  split.
  { rewrite <- (Level_init_player G n).
    unfold Level_init, Level_spawn_enemies.
    set (l1 := Level_generate_map G (mkLevel n [] [] new_player false)).
    destruct (place_enemies_keeps G (Z.to_nat (enemy_count (number l1))) l1
                (Random G (number l1 * 31 + 7))) as (_ & _ & Hp).
    rewrite Hp. apply place_enemies_idents.
    destruct (generate_map_keeps G (mkLevel n [] [] new_player false))
      as (_ & Hpl & He).
    subst l1. rewrite He, Hpl. cbn. constructor; [intros [] | constructor]. }
  unfold Level_init, Level_spawn_enemies.
  destruct (generate_map_keeps G (mkLevel n [] [] new_player false))
    as (Hn & _ & He).
  rewrite Hn. cbn [number].
  pose proof (place_enemies_length G (Z.to_nat (enemy_count n))
                (Level_generate_map G (mkLevel n [] [] new_player false))
                (Random G (n * 31 + 7))) as H.
  rewrite He in H. cbn [enemies length] in H. exact H.
Qed.

Lemma handle_event_ok (g : Game) (event : Event) :
  level_ok G (level_number g) (level g) ->
  level_number (handle_event M g event) = level_number g /\
  level_ok G (level_number g) (level (handle_event M g event)).
Proof.
  intros Hok.
  destruct event as [|[| |]|]; cbn [handle_event level_number level];
    (split; [reflexivity|]); try exact Hok.
  destruct Hok as (Hn & Hw & Hp & Hes & Hfit & Hnd & Hlen).
  destruct (fire_kept M (player (level g))) as (B & Ho & Ht).
  destruct (fire_build M (player (level g))) as (_ & Ha & _).
  unfold level_ok. cbn [number walls player enemies set_player].
  split; [exact Hn|]. split; [exact Hw|].
  split; [destruct B as (_ & _ & _ & _ & Hip & _); congruence|].
  split; [exact Hes|].
  inversion Hfit as [|? ? (Fa & Fs & Fo & Ft) Hfes]; subst.
  split.
  { constructor; [|exact Hfes].
    split; [congruence|].
    split; [destruct B as (_ & _ & _ & _ & _ & _ & Hs); congruence|].
    split; [apply Ho; exact Fo | apply Ht; exact Ft]. }
  split; [|exact Hlen].
  cbn [map] in *. destruct B as (Hi & _). rewrite Hi. exact Hnd.
Qed.

Lemma handle_events_ok (events : list Event) :
  forall g,
    level_ok G (level_number g) (level g) ->
    level_number (Game__handle_events M events g) = level_number g /\
    level_ok G (level_number g) (level (Game__handle_events M events g)).
Proof.
  unfold Game__handle_events.
  induction events as [|e es IH]; intros g Hok; cbn [fold_left]; [auto|].
  destruct (handle_event_ok g e Hok) as [Hn Hok'].
  rewrite <- Hn in Hok'. destruct (IH _ Hok') as [Hn' Hok''].
  rewrite Hn' , Hn in *. auto.
Qed.

Lemma Game_update_ok (dt : Q) (keys : Keys) (g : Game) :
  1 <= level_number g ->
  level_ok G (level_number g) (level g) ->
  1 <= level_number (Game__update M G dt keys g) /\
  level_ok G (level_number (Game__update M G dt keys g))
           (level (Game__update M G dt keys g)).
Proof.
  intros Hpos Hok. unfold Game__update.
  pose proof (Level_update_facts M dt keys (level g)) as Hf. cbv zeta in Hf.
  destruct Hf as (Hn & Hw & _ & Halive & Hlen & _ & Hpd & _).
  destruct (Level_update_kept M dt keys (level g))
    as (p3 & es3 & Hkept & Hp3 & Hes3).
  destruct (Level_update M dt keys (level g)) as [updated complete].
  cbn [fst snd] in *.
  destruct complete; cbn [level_number level].
  { split; [lia | apply Level_init_ok]. }
  destruct (player_destroyed updated) eqn:Ed; cbn [level_number level].
  { split; [lia | apply Level_init_ok]. }
  split; [exact Hpos|].
  destruct Hok as (Hn0 & Hw0 & Hip & Hes & Hfit & Hnd & Hlen0).
  assert (Hpa : alive (player updated) = true).
  { destruct (alive (player updated)); [reflexivity | discriminate]. }
  assert (Hbuild : Forall2 same_build (player (level g) :: enemies (level g))
                           (p3 :: es3)).
  { eapply Forall2_impl; [|exact Hkept]. intros a b H. apply H. }
  assert (Hrest : Forall (fun t => size t = (36, 36) /\ owned t /\ timer_ok t)
                         (p3 :: es3)).
  { eapply (Forall2_Forall kept fit); [|exact Hkept | exact Hfit].
    intros a b (B & Ho & Ht) (_ & Hs & Fo & Ft).
    destruct B as (_ & _ & _ & _ & _ & _ & Hsz).
    split; [congruence | auto]. }
  inversion Hkept as [|? ? ? ? Hkp Hkes]; subst.
  inversion Hrest as [|? ? Hrp Hres]; subst.
  unfold level_ok. rewrite Hes3.
  split; [congruence|]. split; [congruence|].
  split.
  { destruct Hkp as ((_ & _ & _ & _ & Hi & _) & _). congruence. }
  split.
  { apply Forall_filter.
    eapply (Forall2_Forall kept (fun e => is_player e = false));
      [|exact Hkes | exact Hes].
    intros a b ((_ & _ & _ & _ & Hi & _) & _) Ha. congruence. }
  split.
  { constructor; [split; [exact Hpa | exact Hrp]|].
    apply Forall_forall. intros e He.
    pose proof He as He'. apply filter_In in He'. destruct He' as [Hin Hal].
    rewrite Forall_forall in Hres. split; [exact Hal | apply Hres; exact Hin]. }
  split.
  { pose proof (same_build_idents _ _ Hbuild) as Hid. cbn [map] in Hid, Hnd |- *.
    injection Hid as Hidp Hides.
    rewrite <- Hidp, <- Hides in Hnd.
    inversion Hnd as [|? ? Hnotin Hnd']; subst.
    constructor; [|apply NoDup_map_filter; exact Hnd'].
    intros Hin. apply Hnotin. apply in_map_iff in Hin.
    destruct Hin as (b & Hb & Hin). apply filter_In in Hin.
    apply in_map_iff. exists b. tauto. }
  rewrite <- Hes3. lia.
Qed.

(** X15.  Whatever frames pygame delivers (frame times, events, keys),
    between two frames of a game started by [Game()] the level number
    is at least 1 and is the number of the current level, whose walls
    are those generated for that number; the player and every listed
    enemy are alive (a dead vehicle never survives a frame boundary),
    36 x 36, with the reload timer inside [0, cooldown] and only shells
    of their own in their lists; the vehicles are pairwise distinct
    objects, and the enemies are no more than [enemy_count] of the
    level number. *)
Theorem X15_reachable_states (frames : list Frame) :
  let g := Game_run M G frames (Game_init G) in
  1 <= level_number g /\
  level_ok G (level_number g) (level g).
Proof.
  cbv zeta.
  assert (H : forall g,
             1 <= level_number g /\ level_ok G (level_number g) (level g) ->
             1 <= level_number (Game_run M G frames g) /\
             level_ok G (level_number (Game_run M G frames g))
                      (level (Game_run M G frames g))).
  { induction frames as [|f rest IH]; intros g Hg; cbn [Game_run]; [exact Hg|].
    destruct (running g); [|exact Hg].
    apply IH. unfold Game_frame. destruct Hg as [Hpos Hok].
    destruct (handle_events_ok (frame_events f) g Hok) as [Hn Hok'].
    apply Game_update_ok; rewrite Hn; assumption. }
  apply H. unfold Game_init. cbn [level_number level].
  split; [lia | apply Level_init_ok].
Qed.

End Reach.

(** ** The event queue and the end of the loop *)

Section EventFacts.

Variable M : MathLib.
Variable G : RandomGen.

Lemma fire_idempotent (t : Tank) :
  (0 < shell_cooldown t)%Q ->
  Tank_fire M (Tank_fire M t) = Tank_fire M t.
Proof.
  intros Hc.
  destruct (Qlt_le_dec 0 (reload_time t)) as [Hlt|Hle].
  - rewrite !(fire_blocked M t Hlt). reflexivity.
  - destruct (alive t) eqn:Ha.
    + apply fire_blocked. rewrite (fire_effect M t Ha Hle).
      cbn [reload_time set_reload_time]. exact Hc.
    + assert (E : Tank_fire M t = t).
      { unfold Tank_fire. rewrite Ha. cbn [negb]. rewrite orb_true_r.
        reflexivity. }
      rewrite !E. reflexivity.
Qed.

Lemma handle_events_running (events : list Event) :
  forall g,
    running (Game__handle_events M events g) =
    running g && negb (existsb ends_game events).
Proof.
  unfold Game__handle_events.
  induction events as [|e es IH]; intros g; cbn [fold_left existsb].
  - cbn [negb]. rewrite andb_true_r. reflexivity.
  - rewrite IH.
    destruct e as [|[| |]|]; cbn [handle_event running ends_game orb negb];
      try reflexivity; rewrite andb_false_r; reflexivity.
Qed.

Lemma handle_events_batch (events : list Event) :
  forall g,
    (0 < shell_cooldown (player (level g)))%Q ->
    Game__handle_events M events g =
    mkGame (level_number g)
           (if existsb is_space events
            then set_player (level g) (Tank_fire M (player (level g)))
            else level g)
           (running g && negb (existsb ends_game events)).
Proof.
  unfold Game__handle_events.
  induction events as [|e es IH]; intros g Hc; cbn [fold_left existsb].
  - cbn [negb]. rewrite andb_true_r. destruct g; reflexivity.
  - destruct e as [|[| |]|];
      cbn [handle_event is_space ends_game orb negb].
    + rewrite IH by exact Hc. cbn [level_number level running].
      rewrite andb_false_r. reflexivity.
    + rewrite IH by exact Hc. cbn [level_number level running].
      rewrite andb_false_r. reflexivity.
    + destruct (fire_build M (player (level g)))
        as ((_ & _ & _ & _ & _ & Hcool & _) & _).
      rewrite IH by (cbn [level player set_player]; rewrite Hcool; exact Hc).
      cbn [level_number level running player set_player number walls enemies
           player_destroyed].
      rewrite (fire_idempotent _ Hc).
      destruct (existsb is_space es); reflexivity.
    + rewrite IH by exact Hc. reflexivity.
    + rewrite IH by exact Hc. reflexivity.
Qed.

Lemma Game_update_running (dt : Q) (keys : Keys) (g : Game) :
  running (Game__update M G dt keys g) = running g /\
  (level_number (Game__update M G dt keys g) = level_number g \/
   level (Game__update M G dt keys g) =
   Level_init G (level_number (Game__update M G dt keys g))).
Proof.
  unfold Game__update.
  destruct (Level_update M dt keys (level g)) as [updated complete].
  destruct complete; [split; [reflexivity | right; reflexivity]|].
  destruct (player_destroyed updated);
    [split; [reflexivity | right; reflexivity]|].
  split; [reflexivity | left; reflexivity].
Qed.

(** X16.  For a player with a positive cooldown, the events of one
    frame amount to at most one [fire] and at most one stop, whatever
    their number and order: the player fires once if Space was pressed
    at all, [running] is cleared if the window was closed or Escape
    pressed, and nothing else of the game changes. *)
Theorem X16_event_queue_as_one_shot (events : list Event) (g : Game)
  (Hc : (0 < shell_cooldown (player (level g)))%Q) :
  Game__handle_events M events g =
  mkGame (level_number g)
         (if existsb is_space events
          then set_player (level g) (Tank_fire M (player (level g)))
          else level g)
         (running g && negb (existsb ends_game events)).
Proof. exact (handle_events_batch events g Hc). Qed.

(** X17.  A frame whose events close the window or press Escape is
    still played to its end (the level is updated once more) and is
    the last one: the loop of [Game.run] stops after it and no later
    frame is processed.  The flag is never set back: once [running] is
    false the loop does nothing. *)
Theorem X17_quit_ends_after_the_frame (f : Frame) (rest : list Frame)
  (g : Game)
  (Hrun : running g = true)
  (Hquit : existsb ends_game (frame_events f) = true) :
  Game_run M G (f :: rest) g =
  Game__update M G (frame_dt f) (frame_keys f)
               (Game__handle_events M (frame_events f) g) /\
  running (Game_run M G (f :: rest) g) = false /\
  forall more, Game_run M G more (Game_run M G (f :: rest) g) =
               Game_run M G (f :: rest) g.
Proof.
  assert (Hstop : running (Game_frame M G f g) = false).
  { unfold Game_frame.
    destruct (Game_update_running (frame_dt f) (frame_keys f)
                (Game__handle_events M (frame_events f) g)) as [-> _].
    rewrite handle_events_running, Hquit, Hrun. reflexivity. }
  assert (Hone : Game_run M G (f :: rest) g = Game_frame M G f g).
  { cbn [Game_run]. rewrite Hrun.
    destruct rest as [|f' rest']; cbn [Game_run]; [reflexivity|].
    rewrite Hstop. reflexivity. }
  rewrite Hone. split; [reflexivity|]. split; [exact Hstop|].
  intros more. destruct more as [|f' more']; cbn [Game_run]; [reflexivity|].
  rewrite Hstop. reflexivity.
Qed.

End EventFacts.

Lemma X16_witness_space_pressed_twice :
  (0 < shell_cooldown (player (level (mkGame 1 duel_level true))))%Q /\
  Game__handle_events Approx.math
    [KEYDOWN K_SPACE; KEYDOWN K_OTHER; KEYDOWN K_SPACE]
    (mkGame 1 duel_level true) =
  mkGame 1 (set_player duel_level (Tank_fire Approx.math (player duel_level)))
         true.
Proof.
  split; [vm_compute; reflexivity|].
  apply (X16_event_queue_as_one_shot Approx.math
           [KEYDOWN K_SPACE; KEYDOWN K_OTHER; KEYDOWN K_SPACE]
           (mkGame 1 duel_level true)).
  vm_compute. reflexivity.
Defined.

Lemma X17_witness_window_closed :
  running (mkGame 1 duel_level true) = true /\
  existsb ends_game [KEYDOWN K_SPACE; QUIT] = true /\
  running (Game_run Approx.math Mt.gen
             [mkFrame (1 # 60) [KEYDOWN K_SPACE; QUIT] no_keys;
              mkFrame (1 # 60) [] no_keys]
             (mkGame 1 duel_level true)) = false.
Proof.
  split; [reflexivity|]. split; [reflexivity|].
  apply (X17_quit_ends_after_the_frame Approx.math Mt.gen
           (mkFrame (1 # 60) [KEYDOWN K_SPACE; QUIT] no_keys)
           [mkFrame (1 # 60) [] no_keys]
           (mkGame 1 duel_level true)); reflexivity.
Defined.

(** ** Instances *)

(** The reload timer of a tank a second after a shot with 0.3 s left:
    clamped into [0, 0.6]. *)
Lemma X1_witness_reload_timer :
  (0 <= 6 # 10)%Q /\
  (0 <= clamp ((3 # 10) - 1) 0 (6 # 10) /\
   clamp ((3 # 10) - 1) 0 (6 # 10) <= 6 # 10)%Q.
Proof.
  split; [vm_compute; discriminate|].
  apply (proj1 (X1_clamp_behaviour ((3 # 10) - 1) 0 (6 # 10))).
  vm_compute; discriminate.
Defined.


(** The player at its spawn point, next to no wall of the border. *)
Lemma X5_witness_player_at_spawn :
  Tank_rect new_player = Some (mkRect 462 630 36 36) /\
  Tank__handle_wall_collisions new_player [tile_rect 0 0; tile_rect 9 14]
  = new_player.
Proof.
  split; [vm_compute; reflexivity|].
  apply (proj2 (proj2 (X5_clear_tank_not_moved new_player
                         [tile_rect 0 0; tile_rect 9 14]))
           (mkRect 462 630 36 36)).
  - vm_compute. reflexivity.
  - intros wall [<-|[<-|[]]]; vm_compute; reflexivity.
Defined.
